(** * spikedetekt2: the detection driver [core/main.py] and the parameter
      loader [utils/params.py]

    A shallow embedding of [run], [get_params] and [load_default_params],
    together with models of the functions they import from
    [spikedetekt2.processing], [spikedetekt2.utils] and
    [spikedetekt2.dataio].  Sample values and thresholds are rationals:
    the driver only negates and compares them, and both operations are
    exact on the floats of the source. *)

From Stdlib Require Import QArith Qabs Lqa Ascii String.
From stdpp Require Import gmap strings list fin_maps relations sorting.

Local Open Scope Q_scope.

(* ===================================================================== *)
(** * Python values, exceptions and results *)
(* ===================================================================== *)

(** The values a [.PRM] dictionary holds. *)
Inductive pyval : Type :=
| PyNone
| PyBool (b : bool)
| PyInt (n : Z)
| PyFloat (q : Q)
| PyStr (s : string).

(** A Python [dict] with string keys, as used for [prm] and [kwargs]. *)
Abbreviation pydict := (gmap string pyval).

(** The exceptions that can leave [run] and [get_params]. *)
Inductive exn : Type :=
| AssertionError (msg : string)
| KeyError (key : string)
| TypeError (msg : string)
| IOError (path : string)
| ConfigError (msg : string)
| DataSourceError (msg : string).

(** A call either raises or returns. *)
Inductive result (A : Type) : Type :=
| Raise (e : exn)
| Return (a : A).
Arguments Raise {A} e.
Arguments Return {A} a.

Definition result_bind {A B} (f : A → result B) (r : result A) : result B :=
  match r with
  | Raise e => Raise e
  | Return a => f a
  end.

#[global] Instance result_ret : MRet result := λ A a, Return a.
#[global] Instance result_mbind : MBind result := λ A B f r, result_bind f r.

Definition is_config_error (e : exn) : bool :=
  match e with ConfigError _ => true | _ => false end.

(** [f(..., name=v, **d)] raises [TypeError] when [d] repeats the keyword
    [name]. *)
Definition keyword_clash (names : list string) (d : pydict) : option string :=
  head (filter (λ k, bool_decide (is_Some (d !! k))) names).

Definition check_keywords {A} (fname : string) (names : list string)
    (d : pydict) (call : result A) : result A :=
  match keyword_clash names d with
  | Some k => Raise (TypeError (fname +:+ "() got multiple values for keyword argument '" +:+ k +:+ "'"))
  | None => call
  end.

(* ===================================================================== *)
(** * [utils/params.py] *)
(* ===================================================================== *)

Definition lower_ascii (a : ascii) : ascii :=
  let n := nat_of_ascii a in
  if (65 <=? n)%nat && (n <=? 90)%nat then ascii_of_nat (n + 32) else a.

Fixpoint lower (s : string) : string :=
  match s with
  | EmptyString => EmptyString
  | String a s' => String (lower_ascii a) (lower s')
  end.

(** Modelled from the spec: [to_lower] of [spikedetekt2.utils] is not among
    the sources; by its name and its use in [load_default_params] it
    returns the dictionary with every key lowercased. *)
Definition to_lower (d : pydict) : pydict :=
  list_to_map (prod_map lower id <$> map_to_list d).

(** Modelled from the spec: [get_pydict] of [spikedetekt2.utils] is not
    among the sources.  The docstring of [get_params] fixes what it
    returns: the keyword arguments first, then the parameters of the
    [.PRM] file given in [filename], then the default parameters.
    [read_file] is the file system and [python_to_pydict] the evaluation of
    a Python script in a namespace. *)
Definition get_pydict (read_file : string → option string)
    (python_to_pydict : string → pydict → pydict)
    (filename : option string) (pydict_default : pydict)
    (kwargs : pydict) : result pydict :=
  pydict_prm ← match filename with
               | None => Return ∅
               | Some path =>
                   match read_file path with
                   | Some script => Return (python_to_pydict script ∅)
                   | None => Raise (IOError path)
                   end
               end;
  Return (kwargs ∪ pydict_prm ∪ pydict_default).

Section params.
(** The package's [params_default.py], the file system, and the
    evaluation of a script ([python_to_pydict] is not among the
    sources and runs arbitrary Python). *)
Variable params_default_python : string.
Variable read_file : string → option string.
Variable python_to_pydict : string → pydict → pydict.

(** The namespace [load_default_params] builds at params.py:38. *)
Definition default_namespace (namespace : option pydict) : pydict :=
  let namespace := default ∅ namespace in
  {[ "sample_rate"%string := default (PyInt 0) (namespace !! "sample_rate"%string) ]}.

(** params.py:31-45 *)
Definition load_default_params (namespace : option pydict) : pydict :=
  let namespace := default_namespace namespace in
  let params_default := python_to_pydict params_default_python namespace in
  to_lower params_default.

(** params.py:15-25.  The arguments are evaluated before the call, and the
    call repeats the keyword [pydict_default] when [kwargs] holds it. *)
Definition get_params (filename : option string) (kwargs : pydict)
    : result pydict :=
  let pydict_default := load_default_params (Some kwargs) in
  check_keywords "get_pydict" ["pydict_default"%string] kwargs
    (get_pydict read_file python_to_pydict filename pydict_default kwargs).
End params.

(* ===================================================================== *)
(** * Data model of the detection run *)
(* ===================================================================== *)

(** A chunk of samples, time index first, channel second. *)
Abbreviation Array := (list (list Q))%type.

(** A boolean array of the same shape, as [apply_threshold] returns. *)
Abbreviation Grid := (list (list bool))%type.

(** A (time index, channel) position of a chunk. *)
Abbreviation cell := (nat * nat)%type.

(** A connected component: a set of cells. *)
Abbreviation component := (gset cell)%type.

(** The adjacency graph: channel to the set of its neighbours. *)
Abbreviation Graph := (gmap nat (gset nat))%type.

(** The [side] argument of [apply_threshold]. *)
Inductive side : Type := below | above.

(** One entry of [prb['channel_groups']]. *)
Record channel_group : Type := ChannelGroup {
  channels : list nat;
  graph : list (nat * nat)
}.

Abbreviation Prb := (list channel_group)%type.

(** [chunk.data_chunk_full] is all the driver reads of a chunk. *)
Record Chunk : Type := MkChunk {
  data_chunk_full : Array
}.

(** The experiment handed to [run], and a row of the spikes table of one
    of its channel groups ([time_samples], [time_fractional] and the masks,
    as in the experiment tests, with the cells of the component the spike
    comes from). *)
Record Experiment : Type := MkExperiment {
  exp_name : string;
  exp_dir : string
}.

Record SpikeEvent : Type := MkSpike {
  time_samples : nat;
  time_fractional : Q;
  masks : list Q;
  spike_cells : component;
  spike_group : nat
}.

(** What [run] can be given as [raw_data], and what [read_raw] can be
    called on. *)
Inductive raw_input (Reader : Type) : Type :=
| RawReader (r : Reader)
| RawPath (path : string)
| RawArray (a : Array).
Arguments RawReader {Reader} r.
Arguments RawPath {Reader} path.
Arguments RawArray {Reader} a.

Inductive raw_source (Reader : Type) : Type :=
| FromInput (i : raw_input Reader)
| FromExperiment (e : option Experiment).
Arguments FromInput {Reader} i.
Arguments FromExperiment {Reader} e.

(** The functions [run] imports.  None of them is among the sources; [run]
    is modelled over any implementation of them.  [chunks] is the generator
    [raw_data.chunks]: the chunks it yields and the exception that ends it,
    if any. *)
Record Collaborators : Type := MkCollaborators {
  Reader : Type;
  Filter : Type;
  get_adjacency_graph : option Prb → result Graph;
  read_raw : raw_source Reader → result Reader;
  bandpass_filter : pyval → pyval → pyval → pyval → result Filter;
  get_threshold : Reader → Filter → pydict → result (Q * Q);
  chunks : Reader → pyval → pyval → list Chunk * option exn;
  apply_filter : Array → Filter → result Array;
  apply_threshold : Array → Q → side → result Grid;
  connected_components : Grid → Grid → Graph → pydict → result (list component)
}.

(* ===================================================================== *)
(** * The effects of [run]: a log of calls and the spikes table *)
(* ===================================================================== *)

(** What [run] does that can be observed from outside: reading a
    parameter, calling an imported function (with its arguments where the
    properties below speak of them, and for [connected_components] what
    the call gave). *)
Inductive event : Type :=
| ReadParam (key : string)
| CallGetAdjacencyGraph (prb : option Prb)
| CallReadRaw
| CallBandpassFilter (order rate low high : pyval)
| CallGetThreshold (prm : pydict)
| CallChunks (chunk_size chunk_overlap : pyval)
| CallApplyFilter (data : Array)
| CallApplyThreshold (data : Array) (threshold : Q) (s : side)
| CallConnectedComponents (chunk_strong chunk_weak : Grid)
    (components : result (list component)).

(** The log of events so far and the rows of the experiment's spikes
    table. *)
Record world : Type := MkWorld {
  calls : list event;
  spikes : list SpikeEvent
}.

Definition action (A : Type) : Type := world → world * result A.

#[global] Instance action_ret : MRet action := λ A a w, (w, Return a).
#[global] Instance action_mbind : MBind action := λ A B f m w,
  match m w with
  | (w', Raise e) => (w', Raise e)
  | (w', Return a) => f a w'
  end.

Definition raise {A} (e : exn) : action A := λ w, (w, Raise e).

Definition log (e : event) (w : world) : world :=
  {| calls := calls w ++ [e]; spikes := spikes w |}.

(** A call of an imported function: logged, then its outcome. *)
Definition call {A} (e : event) (r : result A) : action A :=
  λ w, (log e w, r).

(** [assert cond, msg] *)
Definition py_assert (cond : bool) (msg : string) : action () :=
  if cond then mret () else raise (AssertionError msg).

(** [prm[key]] *)
Definition getitem (prm : option pydict) (key : string) : action pyval :=
  match prm with
  | None => raise (TypeError "'NoneType' object is not subscriptable")
  | Some d => call (ReadParam key)
                (match d !! key with
                 | Some v => Return v
                 | None => Raise (KeyError key)
                 end)
  end.

(** [prm.get(key, dflt)] *)
Definition dict_get (prm : option pydict) (key : string) (dflt : pyval)
    : action pyval :=
  match prm with
  | None => raise (TypeError "'NoneType' object has no attribute 'get'")
  | Some d => call (ReadParam key) (Return (default dflt (d !! key)))
  end.

(** [**prm] *)
Definition unpack (prm : option pydict) : action pydict :=
  match prm with
  | None => raise (TypeError "argument after ** must be a mapping, not NoneType")
  | Some d => mret d
  end.

(** [for x in xs: body], over a generator that may end by raising. *)
Fixpoint for_each {A} (xs : list A) (stop : option exn)
    (body : A → action ()) : action () :=
  match xs with
  | [] => match stop with Some e => raise e | None => mret () end
  | x :: xs' => _ ← body x; for_each xs' stop body
  end.

(* ===================================================================== *)
(** * [core/main.py] *)
(* ===================================================================== *)

Definition assert_msg : string :=
  "An Experiment instance needs to be provided in order to write the output.".

Section run.
Variable E : Collaborators.

(** main.py:59-72, the body of the loop over the chunks.  The components
    are bound and not used: lines 74-77 are comments. *)
Definition process_chunk (filter : Filter E)
    (threshold_strong threshold_weak : Q) (graph : Graph) (prm : pydict)
    (chunk : Chunk) : action () :=
  chunk_fil ← call (CallApplyFilter (data_chunk_full chunk))
                (apply_filter E (data_chunk_full chunk) filter);
  chunk_strong ← call (CallApplyThreshold chunk_fil (- threshold_strong) below)
                   (apply_threshold E chunk_fil (- threshold_strong) below);
  chunk_weak ← call (CallApplyThreshold chunk_fil (- threshold_weak) below)
                 (apply_threshold E chunk_fil (- threshold_weak) below);
  let found := check_keywords "connected_components"
                 ["chunk_strong"; "chunk_weak"; "graph"]%string prm
                 (connected_components E chunk_strong chunk_weak graph prm) in
  components ← call (CallConnectedComponents chunk_strong chunk_weak found) found;
  mret ().

(** main.py:17-83 *)
Definition run (raw_data : option (raw_input (Reader E)))
    (experiment : option Experiment) (prm : option pydict)
    (prb : option Prb) : action () :=
  _ ← py_assert (bool_decide (is_Some experiment)) assert_msg;
  sample_rate ← getitem prm "sample_rate";
  chunk_size ← dict_get prm "chunk_size" PyNone;
  chunk_overlap ← dict_get prm "chunk_overlap" (PyInt 0);
  filter_butter_order ← getitem prm "filter_butter_order";
  filter_high ← getitem prm "filter_high";
  filter_low ← getitem prm "filter_low";
  graph ← call (CallGetAdjacencyGraph prb) (get_adjacency_graph E prb);
  raw_data ← match raw_data with
             | Some (RawReader r) => mret r
             | Some i => call CallReadRaw (read_raw E (FromInput i))
             | None => call CallReadRaw (read_raw E (FromExperiment experiment))
             end;
  filter ← call (CallBandpassFilter filter_butter_order sample_rate
                   filter_low filter_high)
             (bandpass_filter E filter_butter_order sample_rate
                filter_low filter_high);
  kw ← unpack prm;
  '(threshold_strong, threshold_weak) ←
     call (CallGetThreshold kw)
       (check_keywords "get_threshold" ["filter"]%string kw
          (get_threshold E raw_data filter kw));
  let '(cs, stop) := chunks E raw_data chunk_size chunk_overlap in
  _ ← call (CallChunks chunk_size chunk_overlap) (Return ());
  for_each cs stop
    (process_chunk filter threshold_strong threshold_weak graph kw).

(** The spikes [run] adds to the table. *)
Definition emitted (w : world) (m : action ()) : list SpikeEvent :=
  drop (length (spikes w)) (spikes (m w).1).
End run.

(* ===================================================================== *)
(** * The imported functions, from their specification *)
(* ===================================================================== *)

Definition Qlt_bool (x y : Q) : bool := negb (Qle_bool y x).

(** [b] is a neighbour of [a]. *)
Definition neighbour (G : Graph) (a b : nat) : Prop := b ∈ G !!! a.

(** Two cells are adjacent when their time indices differ by at most one
    and their channels are equal or neighbours. *)
Definition adjacent (G : Graph) (a b : cell) : Prop :=
  (a.1 ≤ S b.1 ∧ b.1 ≤ S a.1)%nat ∧ (a.2 = b.2 ∨ neighbour G a.2 b.2).

#[global] Instance adjacent_dec G a b : Decision (adjacent G a b).
Proof. unfold adjacent, neighbour. apply _. Defined.


(** The cells of a boolean array that hold [True], in row order. *)
Definition row_cells (t : nat) (row : list bool) : list cell :=
  omap id (imap (λ ch (b : bool), if b then Some (t, ch) else None) row).

Definition nonzero (g : Grid) : list cell := mjoin (imap row_cells g).

Definition insert_sorted (x : Q) : list Q → list Q :=
  fix go l :=
    match l with
    | [] => [x]
    | y :: l' => if Qle_bool x y then x :: l else y :: go l'
    end.

Definition sort_samples (l : list Q) : list Q := foldr insert_sorted [] l.

Definition median (l : list Q) : Q :=
  default 0 (sort_samples l !! (length l `div` 2)%nat).

Definition param (d : pydict) (key : string) : result pyval :=
  match d !! key with
  | Some v => Return v
  | None => Raise (KeyError key)
  end.

Definition as_number (v : pyval) : result Q :=
  match v with
  | PyFloat q => Return q
  | PyInt n => Return (inject_Z n)
  | _ => Raise (TypeError "a number is required")
  end.

(** The weak cells of a chunk, and connectivity through them: a
    component is the set of all the weak cells that can be reached from
    one of them by steps between adjacent weak cells. *)
Definition weak_cells (chunk_weak : Grid) : gset cell :=
  list_to_set (nonzero chunk_weak).

Definition weak_link (G : Graph) (W : gset cell) (a b : cell) : Prop :=
  a ∈ W ∧ b ∈ W ∧ adjacent G a b.

Definition connected (G : Graph) (W : gset cell) : relation cell :=
  rtc (weak_link G W).

Definition is_component (G : Graph) (W : gset cell) (C : component) : Prop :=
  ∃ a, a ∈ W ∧ ∀ b, b ∈ C ↔ connected G W a b.

Definition graph_symmetric (G : Graph) : Prop :=
  ∀ a b, neighbour G a b → neighbour G b a.

Module Spec.

(** Modelled from the spec: [get_adjacency_graph] of [spikedetekt2.utils]
    is not among the sources.  Section 4.1: from the channel groups with
    their explicit neighbour pairs to a symmetric adjacency mapping;
    [ConfigError] if a pair references a channel that its group does not
    list. *)
Definition link (a b : nat) (G : Graph) : Graph := <[a := {[b]} ∪ G !!! a]> G.

Definition add_edge (G : Graph) (e : nat * nat) : Graph :=
  link e.1 e.2 (link e.2 e.1 G).

Definition known_edge (g : channel_group) (e : nat * nat) : bool :=
  bool_decide (e.1 ∈ channels g) && bool_decide (e.2 ∈ channels g).

Definition isolated (chs : list nat) : Graph :=
  list_to_map ((λ c, (c, ∅)) <$> chs).

Definition group_graph (g : channel_group) : result Graph :=
  if forallb (known_edge g) (graph g)
  then Return (foldl add_edge (isolated (channels g)) (graph g))
  else Raise (ConfigError "the graph references an unknown channel").

Definition merge_graphs (G1 G2 : Graph) : Graph :=
  union_with (λ s1 s2, Some (s1 ∪ s2)) G1 G2.

Definition get_adjacency_graph (prb : option Prb) : result Graph :=
  match prb with
  | None => Raise (TypeError "'NoneType' object is not subscriptable")
  | Some groups =>
      foldr (λ g acc, G1 ← group_graph g; G2 ← acc; Return (merge_graphs G1 G2))
        (Return ∅) groups
  end.

(** Modelled from the spec: [get_threshold] of [spikedetekt2.processing]
    is not among the sources.  Section 4.2: a robust amplitude scale of
    the excerpted filtered samples (the median absolute deviation, scaled
    to a standard deviation), times the strong and the weak multiplier;
    [ConfigError] when the weak multiplier exceeds the strong one. *)
Definition robust_scale (xs : list Q) : Q :=
  median (Qabs <$> xs) / (6745 # 10000).

Definition get_threshold (excerpts : list Array) (prm : pydict)
    : result (Q * Q) :=
  multiplier_strong ← param prm "threshold_strong_multiplier" ≫= as_number;
  multiplier_weak ← param prm "threshold_weak_multiplier" ≫= as_number;
  if Qlt_bool multiplier_strong multiplier_weak
  then Raise (ConfigError "the weak multiplier exceeds the strong multiplier")
  else
    let scale := robust_scale (mjoin (mjoin excerpts)) in
    Return (scale * multiplier_strong, scale * multiplier_weak).

(** Modelled from the spec: [apply_threshold] of [spikedetekt2.processing]
    is not among the sources.  Section 4.4, step 1: an elementwise
    comparison against the threshold.  The comparison is strict: on the
    all-zero recording of [test_run_nospikes] both thresholds are zero and
    the test expects no spike. *)
Definition apply_threshold (data : Array) (threshold : Q) (s : side) : Grid :=
  (λ row : list Q,
     (λ x, match s with
           | below => Qlt_bool x threshold
           | above => Qlt_bool threshold x
           end) <$> row) <$> data.

(** Modelled from the spec: [connected_components] of
    [spikedetekt2.processing] is not among the sources.  Section 4.4,
    steps 2 and 3: flood fill of the weak grid under [adjacent], then the
    components without a strong cell are discarded. *)
Definition expand (G : Graph) (W S : gset cell) : gset cell :=
  S ∪ filter (λ c, set_Exists (λ s, adjacent G s c) S) W.

Definition flood (G : Graph) (W : gset cell) (seed : cell) : component :=
  Nat.iter (size W) (expand G W) {[ seed ]}.

Fixpoint label (G : Graph) (W : gset cell) (todo : list cell)
    (seen : gset cell) : list component :=
  match todo with
  | [] => []
  | c :: todo' =>
      if decide (c ∈ seen) then label G W todo' seen
      else let comp := flood G W c in
           comp :: label G W todo' (comp ∪ seen)
  end.

Definition weak_components (G : Graph) (chunk_weak : Grid) : list component :=
  label G (weak_cells chunk_weak) (nonzero chunk_weak) ∅.

Definition has_strong (chunk_strong : Grid) (comp : component) : Prop :=
  set_Exists (λ c, c ∈ nonzero chunk_strong) comp.

Definition connected_components (chunk_strong chunk_weak : Grid)
    (G : Graph) (prm : pydict) : list component :=
  filter (has_strong chunk_strong) (weak_components G chunk_weak).

(** Modelled from the spec: [raw_data.chunks] of [spikedetekt2.dataio] is
    not among the sources.  Sections 3 and 4.3: the chunks tile the
    recording in ranges of [chunk_size] samples, and each comes with a
    margin of [chunk_overlap] samples on each side, clipped to the
    recording ([data_chunk_full]); without a chunk size the recording is
    one chunk. *)
Definition chunk_full (data : Array) (size overlap start : nat) : Chunk :=
  let first := (start - overlap)%nat in
  let last := (start + size + overlap)%nat in
  MkChunk (take (last - first) (drop first data)).

Definition chunks (data : Array) (chunk_size chunk_overlap : pyval)
    : list Chunk :=
  match chunk_size, chunk_overlap with
  | PyInt size, PyInt overlap =>
      if ((0 <? size)%Z && (0 <=? overlap)%Z)%bool then
        let size := Z.to_nat size in
        (λ i, chunk_full data size (Z.to_nat overlap) (i * size))
          <$> seq 0 ((length data + size - 1) `div` size)
      else [MkChunk data]
  | _, _ => [MkChunk data]
  end.

End Spec.

(* ===================================================================== *)
(** * Reading the log *)
(* ===================================================================== *)

Definition is_get_threshold (e : event) : bool :=
  match e with CallGetThreshold _ => true | _ => false end.

(** The events of the loop body, main.py:59-72. *)
Definition is_chunk_work (e : event) : bool :=
  match e with
  | CallApplyFilter _ | CallApplyThreshold _ _ _
  | CallConnectedComponents _ _ _ => true
  | _ => false
  end.

(** The events that fetch or filter data. *)
Definition is_data_access (e : event) : bool :=
  match e with
  | CallReadRaw | CallGetThreshold _ | CallChunks _ _ => true
  | e => is_chunk_work e
  end.

(** The threshold and side of every [apply_threshold] call. *)
Definition threshold_calls (l : list event) : list (Q * side) :=
  omap (λ e, match e with
             | CallApplyThreshold _ t s => Some (t, s)
             | _ => None
             end) l.

(** The parameters read, in order. *)
Definition params_read (l : list event) : list string :=
  omap (λ e, match e with ReadParam k => Some k | _ => None end) l.

(** The arguments [raw_data.chunks] was called with. *)
Definition chunk_requests (l : list event) : list (pyval * pyval) :=
  omap (λ e, match e with CallChunks cs co => Some (cs, co) | _ => None end) l.

(** The components [connected_components] returned, over all chunks. *)
Definition components_found (l : list event) : list component :=
  mjoin (omap (λ e, match e with
                    | CallConnectedComponents _ _ (Return cs) => Some cs
                    | _ => None
                    end) l).

(** How many rows of the table come from a given component. *)
Definition deliveries (comp : component) (l : list SpikeEvent) : nat :=
  length (filter (λ s, spike_cells s = comp) l).

(** A run from an empty log and an empty table: its log and its outcome. *)
Definition fresh : world := {| calls := []; spikes := [] |}.

Definition log_of (m : action ()) : list event := calls (m fresh).1.

Definition outcome (m : action ()) : result () := (m fresh).2.

(** The thresholds are computed once in [l], with the parameters [d],
    before any chunk is worked on. *)
Definition computed_once (l : list event) (d : pydict) : Prop :=
  ∃ pre body,
    l = pre ++ CallGetThreshold d :: body
    ∧ Forall (λ e, is_get_threshold e = false ∧ is_chunk_work e = false) pre
    ∧ Forall (λ e, is_get_threshold e = false) body.


(* ===================================================================== *)
(** * An in-memory recording *)
(* ===================================================================== *)

(** The collaborators over a recording held in memory and already
    filtered: the reader is the array, the filter does nothing, the whole
    recording comes as one chunk.  The detector functions are those of
    [Spec]; [thresholds] stands for [get_threshold]. *)
Definition in_memory (thresholds : Array → pydict → result (Q * Q))
    : Collaborators := {|
  Reader := Array;
  Filter := unit;
  get_adjacency_graph := Spec.get_adjacency_graph;
  read_raw := λ src,
    match src with
    | FromInput (RawArray a) => Return a
    | FromInput (RawReader r) => Return r
    | FromInput (RawPath p) => Raise (IOError p)
    | FromExperiment _ => Raise (DataSourceError "the experiment holds no raw data")
    end;
  bandpass_filter := λ _ _ _ _, Return ();
  get_threshold := λ r _ prm, thresholds r prm;
  chunks := λ r _ _, ([MkChunk r], None);
  apply_filter := λ data _, Return data;
  apply_threshold := λ data t s, Return (Spec.apply_threshold data t s);
  connected_components := λ cs cw G prm,
    Return (Spec.connected_components cs cw G prm)
|}.

(** Thresholds given beforehand, strong then weak. *)
Definition with_thresholds (strong weak : Q) : Collaborators :=
  in_memory (λ _ _, Return (strong, weak)).

(** Thresholds estimated from the whole recording as the one excerpt. *)
Definition with_estimator : Collaborators :=
  in_memory (λ r prm, Spec.get_threshold [r] prm).

(** The scenario of the specification: one channel, weak threshold 1.0,
    strong threshold 2.0, samples 0, 0, -1.5, -2.5, -1.2, 0, 0. *)
Definition scenario_samples : Array :=
  [[0]; [0]; [-(3 # 2)]; [-(5 # 2)]; [-(6 # 5)]; [0]; [0]].


Definition scenario_prb : Prb := [ChannelGroup [0%nat] []].

Definition scenario_prm : pydict :=
  {[ "sample_rate"%string := PyFloat 20000;
     "filter_butter_order"%string := PyInt 3;
     "filter_low"%string := PyFloat 500;
     "filter_high"%string := PyFloat 9500;
     "threshold_strong_multiplier"%string := PyFloat (9 # 2);
     "threshold_weak_multiplier"%string := PyFloat 2 ]}.

Definition scenario_experiment : Experiment :=
  MkExperiment "myexperiment" "/tmp".

Definition scenario_run (samples : Array) (prm : pydict) : action () :=
  run (with_thresholds 2 1) (Some (RawArray samples))
    (Some scenario_experiment) (Some prm) (Some scenario_prb).

(** The component of the scenario: the cells 2, 3 and 4 of channel 0. *)
Definition scenario_component : component :=
  {[ (2, 0); (3, 0); (4, 0) ]}%nat.


(** The parameters of the scenario with a negative chunk size, no chunk
    overlap and an unknown polarity. *)
Definition unchecked_prm : pydict :=
  <["chunk_size"%string := PyInt (-5)]>
    (<["detect_polarity"%string := PyStr "sideways"]> scenario_prm).

(** A neighbour pair with a channel its group does not list. *)
Definition unknown_reference (g : channel_group) : Prop :=
  ∃ e, e ∈ graph g ∧ (e.1 ∉ channels g ∨ e.2 ∉ channels g).

(* ===================================================================== *)
(** * The shape of the log of a run *)
(* ===================================================================== *)

(** The world with more events logged and the same table. *)
Definition extend (w : world) (l : list event) : world :=
  {| calls := calls w ++ l; spikes := spikes w |}.

Definition params_of_run : list string :=
  ["sample_rate"; "chunk_size"; "chunk_overlap"; "filter_butter_order";
   "filter_high"; "filter_low"]%string.

(** The events of main.py:26-54. *)
Definition setup_event (e : event) : Prop :=
  match e with
  | ReadParam k => k ∈ params_of_run
  | CallGetAdjacencyGraph _ | CallReadRaw | CallBandpassFilter _ _ _ _
  | CallGetThreshold _ => True
  | _ => False
  end.

(** The events of main.py:59-72 for the thresholds [s] and [wk]. *)
Definition chunk_event (s wk : Q) (e : event) : Prop :=
  match e with
  | CallApplyFilter _ | CallConnectedComponents _ _ _ => True
  | CallApplyThreshold _ t sd => sd = below ∧ (t = - s ∨ t = - wk)
  | _ => False
  end.

(** One of the functions called at main.py:34-54 raises [e]. *)
Definition raised_in_setup (E : Collaborators) (prb : option Prb) (e : exn)
    : Prop :=
  get_adjacency_graph E prb = Raise e
  ∨ (∃ src, read_raw E src = Raise e)
  ∨ (∃ o r l h, bandpass_filter E o r l h = Raise e)
  ∨ (∃ r f d, get_threshold E r f d = Raise e).

(** The log of a run: either the run stops during the set-up, or the
    thresholds are computed, the chunks requested, and the loop entered. *)
Definition stops_in_setup (E : Collaborators) (prb : option Prb)
    (l : list event) (res : result ()) : Prop :=
  ∃ e, res = Raise e ∧ Forall setup_event l
       ∧ (length (filter is_get_threshold l) ≤ 1)%nat
       ∧ (is_config_error e = true → raised_in_setup E prb e).

Definition enters_loop (E : Collaborators) (prm : option pydict)
    (l : list event) : Prop :=
  ∃ d rd f s wk pre body,
    prm = Some d
    ∧ get_threshold E rd f d = Return (s, wk)
    ∧ l = pre ++ CallGetThreshold d
            :: CallChunks (default PyNone (d !! "chunk_size"%string))
                 (default (PyInt 0) (d !! "chunk_overlap"%string))
            :: body
    ∧ Forall setup_event pre
    ∧ Forall (λ e, is_get_threshold e = false) pre
    ∧ Forall (chunk_event s wk) body.

(* ===================================================================== *)
(** * The ways a run goes *)
(* ===================================================================== *)

(** [prm.get(key)], with [None] for a missing key. *)
Definition val (d : pydict) (k : string) : pyval := default PyNone (d !! k).

(** The first of the parameters read with [prm[key]] at main.py:26-31 that
    the dictionary lacks. *)
Definition first_missing (d : pydict) : option string :=
  match d !! "sample_rate"%string with
  | None => Some "sample_rate"%string
  | Some _ =>
    match d !! "filter_butter_order"%string with
    | None => Some "filter_butter_order"%string
    | Some _ =>
      match d !! "filter_high"%string with
      | None => Some "filter_high"%string
      | Some _ =>
        match d !! "filter_low"%string with
        | None => Some "filter_low"%string
        | Some _ => None
        end
      end
    end
  end.

(** The keys of a list up to and including [k]. *)
Fixpoint upto (k : string) (l : list string) : list string :=
  match l with
  | [] => []
  | x :: l' => if String.eqb x k then [x] else x :: upto k l'
  end.

(** The reads of main.py:26-31, all of them and up to the one of [k]. *)
Definition param_reads : list event := ReadParam <$> params_of_run.

Definition reads_to (k : string) : list event :=
  ReadParam <$> upto k params_of_run.

(** main.py:38-42: a reader is used as it is, anything else goes through
    [read_raw], the experiment when there is no raw data. *)
Definition reader_of (E : Collaborators)
    (raw : option (raw_input (Reader E))) (exp : option Experiment)
    : result (Reader E) :=
  match raw with
  | Some (RawReader r) => Return r
  | Some i => read_raw E (FromInput i)
  | None => read_raw E (FromExperiment exp)
  end.

Definition read_events {R} (raw : option (raw_input R)) : list event :=
  match raw with
  | Some (RawReader _) => []
  | _ => [CallReadRaw]
  end.

Definition bandpass_call (d : pydict) : event :=
  CallBandpassFilter (val d "filter_butter_order") (val d "sample_rate")
    (val d "filter_low") (val d "filter_high").

Definition chunks_call (d : pydict) : event :=
  CallChunks (val d "chunk_size") (default (PyInt 0) (d !! "chunk_overlap"%string)).

(** The log of main.py:26-58 when nothing fails. *)
Definition setup_log {R} (d : pydict) (prb : option Prb)
    (raw : option (raw_input R)) : list event :=
  param_reads ++ CallGetAdjacencyGraph prb :: read_events raw
    ++ [bandpass_call d; CallGetThreshold d; chunks_call d].

(** The places where a run stops before the loop, with the log and the
    exception of each. *)
Inductive run_stops (E : Collaborators) (raw : option (raw_input (Reader E)))
    (exp : option Experiment) (prm : option pydict) (prb : option Prb)
    : list event → exn → Prop :=
| stop_no_experiment :
    exp = None →
    run_stops E raw exp prm prb [] (AssertionError assert_msg)
| stop_no_prm x :
    exp = Some x → prm = None →
    run_stops E raw exp prm prb []
      (TypeError "'NoneType' object is not subscriptable")
| stop_missing x d k :
    exp = Some x → prm = Some d → first_missing d = Some k →
    run_stops E raw exp prm prb (reads_to k) (KeyError k)
| stop_graph x d e :
    exp = Some x → prm = Some d → first_missing d = None →
    get_adjacency_graph E prb = Raise e →
    run_stops E raw exp prm prb
      (param_reads ++ [CallGetAdjacencyGraph prb]) e
| stop_read_raw x d G e :
    exp = Some x → prm = Some d → first_missing d = None →
    get_adjacency_graph E prb = Return G →
    reader_of E raw exp = Raise e →
    run_stops E raw exp prm prb
      (param_reads ++ [CallGetAdjacencyGraph prb; CallReadRaw]) e
| stop_bandpass x d G rd e :
    exp = Some x → prm = Some d → first_missing d = None →
    get_adjacency_graph E prb = Return G →
    reader_of E raw exp = Return rd →
    bandpass_filter E (val d "filter_butter_order") (val d "sample_rate")
      (val d "filter_low") (val d "filter_high") = Raise e →
    run_stops E raw exp prm prb
      (param_reads ++ CallGetAdjacencyGraph prb :: read_events raw
         ++ [bandpass_call d]) e
| stop_threshold x d G rd f e :
    exp = Some x → prm = Some d → first_missing d = None →
    get_adjacency_graph E prb = Return G →
    reader_of E raw exp = Return rd →
    bandpass_filter E (val d "filter_butter_order") (val d "sample_rate")
      (val d "filter_low") (val d "filter_high") = Return f →
    check_keywords "get_threshold" ["filter"%string] d
      (get_threshold E rd f d) = Raise e →
    run_stops E raw exp prm prb
      (param_reads ++ CallGetAdjacencyGraph prb :: read_events raw
         ++ [bandpass_call d; CallGetThreshold d]) e.

(** What the set-up hands to the loop. *)
Record setup_result (E : Collaborators) : Type := MkSetup {
  su_prm : pydict;
  su_graph : Graph;
  su_reader : Reader E;
  su_filter : Filter E;
  su_strong : Q;
  su_weak : Q;
  su_chunks : list Chunk;
  su_stop : option exn
}.
Arguments su_prm {E} _.
Arguments su_graph {E} _.
Arguments su_reader {E} _.
Arguments su_filter {E} _.
Arguments su_strong {E} _.
Arguments su_weak {E} _.
Arguments su_chunks {E} _.
Arguments su_stop {E} _.

(** The set-up succeeds with [c]. *)
Definition run_loops (E : Collaborators) (raw : option (raw_input (Reader E)))
    (exp : option Experiment) (prm : option pydict) (prb : option Prb)
    (c : setup_result E) : Prop :=
  is_Some exp
  ∧ prm = Some (su_prm c)
  ∧ first_missing (su_prm c) = None
  ∧ get_adjacency_graph E prb = Return (su_graph c)
  ∧ reader_of E raw exp = Return (su_reader c)
  ∧ bandpass_filter E (val (su_prm c) "filter_butter_order")
      (val (su_prm c) "sample_rate") (val (su_prm c) "filter_low")
      (val (su_prm c) "filter_high") = Return (su_filter c)
  ∧ keyword_clash ["filter"%string] (su_prm c) = None
  ∧ get_threshold E (su_reader c) (su_filter c) (su_prm c)
    = Return (su_strong c, su_weak c)
  ∧ chunks E (su_reader c) (val (su_prm c) "chunk_size")
      (default (PyInt 0) (su_prm c !! "chunk_overlap"%string))
    = (su_chunks c, su_stop c).

(** The loop of main.py:57-72 after the set-up [c]. *)
Definition run_loop (E : Collaborators) (c : setup_result E) : action () :=
  for_each (su_chunks c) (su_stop c)
    (process_chunk E (su_filter c) (su_strong c) (su_weak c) (su_graph c)
       (su_prm c)).

(** The four calls of the loop body on [chunk] all return: the events
    they leave. *)
Inductive chunk_done (E : Collaborators) (c : setup_result E) (chunk : Chunk)
    : list event → Prop :=
| done_chunk fil strong weak comps :
    apply_filter E (data_chunk_full chunk) (su_filter c) = Return fil →
    apply_threshold E fil (- su_strong c) below = Return strong →
    apply_threshold E fil (- su_weak c) below = Return weak →
    keyword_clash ["chunk_strong"; "chunk_weak"; "graph"]%string (su_prm c)
    = None →
    connected_components E strong weak (su_graph c) (su_prm c) = Return comps →
    chunk_done E c chunk
      [CallApplyFilter (data_chunk_full chunk);
       CallApplyThreshold fil (- su_strong c) below;
       CallApplyThreshold fil (- su_weak c) below;
       CallConnectedComponents strong weak (Return comps)].

(** One of the four calls on [chunk] raises [e]: the events up to that
    call. *)
Inductive chunk_fails (E : Collaborators) (c : setup_result E) (chunk : Chunk)
    : list event → exn → Prop :=
| fails_filter e :
    apply_filter E (data_chunk_full chunk) (su_filter c) = Raise e →
    chunk_fails E c chunk [CallApplyFilter (data_chunk_full chunk)] e
| fails_strong fil e :
    apply_filter E (data_chunk_full chunk) (su_filter c) = Return fil →
    apply_threshold E fil (- su_strong c) below = Raise e →
    chunk_fails E c chunk
      [CallApplyFilter (data_chunk_full chunk);
       CallApplyThreshold fil (- su_strong c) below] e
| fails_weak fil strong e :
    apply_filter E (data_chunk_full chunk) (su_filter c) = Return fil →
    apply_threshold E fil (- su_strong c) below = Return strong →
    apply_threshold E fil (- su_weak c) below = Raise e →
    chunk_fails E c chunk
      [CallApplyFilter (data_chunk_full chunk);
       CallApplyThreshold fil (- su_strong c) below;
       CallApplyThreshold fil (- su_weak c) below] e
| fails_components fil strong weak e :
    apply_filter E (data_chunk_full chunk) (su_filter c) = Return fil →
    apply_threshold E fil (- su_strong c) below = Return strong →
    apply_threshold E fil (- su_weak c) below = Return weak →
    check_keywords "connected_components"
      ["chunk_strong"; "chunk_weak"; "graph"]%string (su_prm c)
      (connected_components E strong weak (su_graph c) (su_prm c)) = Raise e →
    chunk_fails E c chunk
      [CallApplyFilter (data_chunk_full chunk);
       CallApplyThreshold fil (- su_strong c) below;
       CallApplyThreshold fil (- su_weak c) below;
       CallConnectedComponents strong weak (Raise e)] e.

(** How the generator ends the loop. *)
Definition loop_end (stop : option exn) : result () :=
  match stop with Some e => Raise e | None => Return () end.

(** The stage of [run] an event belongs to. *)
Definition phase (e : event) : nat :=
  match e with
  | ReadParam _ => 0
  | CallGetAdjacencyGraph _ => 1
  | CallReadRaw => 2
  | CallBandpassFilter _ _ _ _ => 3
  | CallGetThreshold _ => 4
  | CallChunks _ _ => 5
  | _ => 6
  end.

Definition is_read_raw (e : event) : bool :=
  match e with CallReadRaw => true | _ => false end.

Definition is_components_call (e : event) : bool :=
  match e with CallConnectedComponents _ _ _ => true | _ => false end.

(** A recording that comes in three chunks, the second of them empty, and
    a filter that rejects an empty chunk. *)
Definition three_chunks : Collaborators := {|
  Reader := Array;
  Filter := unit;
  get_adjacency_graph := Spec.get_adjacency_graph;
  read_raw := λ src,
    match src with
    | FromInput (RawArray a) => Return a
    | FromInput (RawReader r) => Return r
    | FromInput (RawPath p) => Raise (IOError p)
    | FromExperiment _ => Raise (DataSourceError "the experiment holds no raw data")
    end;
  bandpass_filter := λ _ _ _ _, Return ();
  get_threshold := λ _ _ _, Return (2, 1);
  chunks := λ r _ _, ([MkChunk r; MkChunk []; MkChunk r], None);
  apply_filter := λ data _,
    match data with
    | [] => Raise (DataSourceError "empty chunk")
    | _ => Return data
    end;
  apply_threshold := λ data t s, Return (Spec.apply_threshold data t s);
  connected_components := λ cs cw G prm,
    Return (Spec.connected_components cs cw G prm)
|}.

(** The comparisons of a complete run after the set-up [c]: every chunk
    against the negated strong and then the negated weak threshold. *)
Definition comparisons {E} (c : setup_result E) : list (Q * side) :=
  mjoin (replicate (length (su_chunks c))
           [(- su_strong c, below); (- su_weak c, below)]).





(** A recording whose median magnitude is 1, and the parameters of the
    scenario with the weak multiplier -1. *)
Definition unit_samples : Array := [[1]; [-(1)]; [1]; [-(3)]; [1]].

Definition negative_weak_prm : pydict :=
  <["threshold_weak_multiplier"%string := PyInt (-1)]> scenario_prm.

Section log_shape.
Variable E : Collaborators.

Lemma extend_nil w : extend w [] = w.
Proof. destruct w. unfold extend. simpl. by rewrite app_nil_r. Qed.

Lemma extend_extend w l1 l2 : extend (extend w l1) l2 = extend w (l1 ++ l2).
Proof. unfold extend. simpl. by rewrite app_assoc. Qed.

Lemma log_extend e w : log e w = extend w [e].
Proof. reflexivity. Qed.

Lemma process_chunk_log f s wk G d chunk w :
  ∃ body res,
    process_chunk E f s wk G d chunk w = (extend w body, res)
    ∧ Forall (chunk_event s wk) body.
Proof.
  unfold process_chunk, mbind, action_mbind, call, mret, action_ret.
  repeat case_match; simplify_eq; rewrite ?log_extend, ?extend_extend;
    eexists _, _; (split; [reflexivity|]);
    repeat (apply Forall_cons; split; [simpl; auto|]); by apply Forall_nil.
Qed.

Lemma for_each_log f s wk G d cs stop w :
  ∃ body res,
    for_each cs stop (process_chunk E f s wk G d) w = (extend w body, res)
    ∧ Forall (chunk_event s wk) body.
Proof.
  revert w. induction cs as [|c cs IH]; intros w; simpl.
  - exists [], (match stop with Some e => Raise e | None => Return () end).
    rewrite extend_nil. split; [by destruct stop|constructor].
  - unfold mbind, action_mbind.
    destruct (process_chunk_log f s wk G d c w) as (b1 & r1 & -> & Hb1).
    destruct r1 as [e|[]].
    + by eexists _, _.
    + destruct (IH (extend w b1)) as (b2 & r2 & -> & Hb2).
      rewrite extend_extend. eexists _, _. split; [reflexivity|].
      by apply Forall_app.
Qed.

Lemma check_keywords_return {A} fname names d (c : result A) a :
  check_keywords fname names d c = Return a → c = Return a.
Proof. unfold check_keywords. by case_match. Qed.

Lemma check_keywords_raise {A} fname names d (c : result A) e :
  check_keywords fname names d c = Raise e →
  is_config_error e = true → c = Raise e.
Proof. unfold check_keywords. case_match; [|done]. by intros [= <-]. Qed.

Lemma run_shape raw exp prm prb w :
  ∃ l res,
    run E raw exp prm prb w = (extend w l, res)
    ∧ (stops_in_setup E prb l res ∨ enters_loop E prm l).
Proof.
  unfold run, mbind, action_mbind, py_assert, getitem, dict_get, unpack,
    call, raise, mret, action_ret.
  repeat case_match; simplify_eq; rewrite ?log_extend, ?extend_extend;
    simpl app.
  all: try match goal with
    | |- context [for_each ?cs ?stop (process_chunk _ ?f ?s ?wk ?G ?d) ?w'] =>
        destruct (for_each_log f s wk G d cs stop w') as (body & res & -> & Hbody);
        rewrite extend_extend; simpl app;
        eexists _, _; split; [reflexivity|right];
        match goal with
        | H : check_keywords _ _ _ _ = Return _ |- _ =>
            apply check_keywords_return in H
        end;
        first [ eexists d, _, _, s, wk, [_; _; _; _; _; _; _; _], body;
                (split; [done|]); (split; [eassumption|]); (split; [reflexivity|])
              | eexists d, _, _, s, wk, [_; _; _; _; _; _; _; _; _], body;
                (split; [done|]); (split; [eassumption|]); (split; [reflexivity|]) ];
        split; [|split; [|done]];
        repeat (apply Forall_cons; split; [simpl; first [exact I | done | set_solver]|]);
        by apply Forall_nil
    end.
  all: eexists _, _; (split; [first [reflexivity | by rewrite extend_nil]|left]);
    eexists; (split; [reflexivity|]);
    (split; [repeat (apply Forall_cons; split;
                       [simpl; first [exact I | set_solver]|]);
             by apply Forall_nil|]);
    (split; [simpl; lia|]);
    try (intros [=]; fail).
  all: intros He; unfold raised_in_setup;
    try match goal with
        | H : check_keywords _ _ _ _ = Raise _ |- _ =>
            apply check_keywords_raise in H; [|done]
        end;
    eauto 10.
Qed.
End log_shape.

Lemma Forall_omap_weaken {A B} (P : A → Prop) (Q : B → Prop)
    (f : A → option B) (l : list A) :
  (∀ a b, P a → f a = Some b → Q b) → Forall P l → Forall Q (omap f l).
Proof.
  intros HPQ. induction 1 as [|a l Ha _ IH]; simpl; [constructor|].
  destruct (f a) eqn:Hfa; [constructor; eauto|done].
Qed.

Lemma setup_event_no_chunk_work e : setup_event e → is_chunk_work e = false.
Proof. by destruct e. Qed.

Lemma chunk_event_no_get_threshold s wk e :
  chunk_event s wk e → is_get_threshold e = false.
Proof. by destruct e. Qed.

(** [run] leaves the spikes table as it found it. *)
Lemma run_spikes E raw exp prm prb w :
  spikes (run E raw exp prm prb w).1 = spikes w.
Proof.
  destruct (run_shape E raw exp prm prb w) as (l & res & -> & _). done.
Qed.

Lemma run_emits_nothing E raw exp prm prb w :
  emitted w (run E raw exp prm prb) = [].
Proof. unfold emitted. rewrite run_spikes. apply drop_all. Qed.

(* ===================================================================== *)
(** * C9: no run without an experiment *)
(* ===================================================================== *)

(** C9.  Called with [experiment=None], [run] raises [AssertionError] and
    has done nothing before: the log of parameter reads and calls and the
    spikes table are as they were. *)
Theorem run_requires_experiment E raw prm prb w :
  run E raw None prm prb w = (w, Raise (AssertionError assert_msg)).
Proof. reflexivity. Qed.

(* ===================================================================== *)
(** * C1, C2: what a run delivers *)
(* ===================================================================== *)


(** C2.  In the run of the scenario [connected_components] returns the
    component of the cells 2 to 4 and the run returns normally; the
    component has been delivered zero times, the spikes table has no
    row. *)
Theorem found_component_not_delivered :
  let m := scenario_run scenario_samples scenario_prm in
  outcome m = Return ()
  ∧ components_found (log_of m) = [scenario_component]
  ∧ deliveries scenario_component (emitted fresh m) = 0%nat.
Proof. by vm_compute. Qed.

(* ===================================================================== *)
(** * C10: the priority of the parameters *)
(* ===================================================================== *)

Lemma lower_ascii_idemp a : lower_ascii (lower_ascii a) = lower_ascii a.
Proof. by destruct a as [[] [] [] [] [] [] [] []]. Qed.

Lemma lower_idemp s : lower (lower s) = lower s.
Proof. induction s as [|a s IH]; simpl; [done|]. by rewrite lower_ascii_idemp, IH. Qed.

Lemma to_lower_keys d k : is_Some (to_lower d !! k) → lower k = k.
Proof.
  intros [v Hv]. unfold to_lower in Hv.
  apply elem_of_list_to_map_2 in Hv.
  apply list_elem_of_fmap in Hv as ([k' v'] & [= -> ->] & _).
  simpl. apply lower_idemp.
Qed.

Lemma priority_lookup (kwargs file defaults : pydict) k :
  (kwargs ∪ file ∪ defaults) !! k
  = match kwargs !! k with
    | Some v => Some v
    | None => match file !! k with
              | Some v => Some v
              | None => defaults !! k
              end
    end.
Proof.
  rewrite !lookup_union. destruct (kwargs !! k), (file !! k), (defaults !! k); done.
Qed.

Lemma keyword_clash_none names (d : pydict) :
  Forall (λ k, d !! k = None) names → keyword_clash names d = None.
Proof.
  unfold keyword_clash. induction 1 as [|k names Hk _ IH]; [done|].
  rewrite filter_cons_False; [done|].
  rewrite Hk. intros ?%bool_decide_unpack. by apply is_Some_None in H.
Qed.

(** [get_params] returns unless the keyword arguments hold
    [pydict_default] or the file cannot be read. *)
Lemma get_params_returns pdp rf ptp filename (kwargs : pydict) :
  kwargs !! "pydict_default"%string = None →
  (∀ path, filename = Some path → is_Some (rf path)) →
  ∃ d, get_params pdp rf ptp filename kwargs = Return d.
Proof.
  intros Hk Hf. unfold get_params, check_keywords.
  rewrite keyword_clash_none by (by constructor). unfold get_pydict.
  destruct filename as [path|]; [|by eexists].
  destruct (Hf path eq_refl) as [script ->]. by eexists.
Qed.

(** C10.  Every parameter [get_params] returns is the keyword argument of
    that name if there is one, else the value of the [.PRM] file, else the
    default; the defaults are the default script evaluated in the
    namespace that holds [sample_rate] alone ([0] when the keyword
    arguments do not give it), with lowercased keys. *)
Theorem get_params_priority pdp rf ptp filename (kwargs d : pydict) :
  get_params pdp rf ptp filename kwargs = Return d →
  let defaults := load_default_params pdp ptp (Some kwargs) in
  ∃ file : pydict,
    match filename with
    | None => file = ∅
    | Some path => ∃ script, rf path = Some script ∧ file = ptp script ∅
    end
    ∧ (∀ k, d !! k = match kwargs !! k with
                     | Some v => Some v
                     | None => match file !! k with
                               | Some v => Some v
                               | None => defaults !! k
                               end
                     end)
    ∧ defaults
      = to_lower (ptp pdp {[ "sample_rate"%string :=
                               default (PyInt 0) (kwargs !! "sample_rate"%string) ]})
    ∧ (∀ k, is_Some (defaults !! k) → lower k = k).
Proof.
  intros Hd defaults. apply check_keywords_return in Hd.
  unfold get_pydict in Hd.
  assert (∃ file : pydict,
    match filename with
    | None => file = ∅
    | Some path => ∃ script, rf path = Some script ∧ file = ptp script ∅
    end ∧ d = kwargs ∪ file ∪ defaults) as (file & Hfile & ->).
  { destruct filename as [path|]; simpl in Hd.
    - destruct (rf path) as [script|] eqn:Hrf; simplify_eq/=.
      exists (ptp script ∅). eauto.
    - simplify_eq/=. by exists ∅. }
  exists file. split; [done|]. split; [intros k; apply priority_lookup|].
  split; [done|]. intros k. apply to_lower_keys.
Qed.

(** A call of [get_params] with a [.PRM] file that sets [chunk_size] and
    [nexcerpts], a default script that sets [Chunk_Size] and
    [filter_low], and the keyword argument [nexcerpts]. *)
Lemma get_params_priority_witness :
  let ptp := λ (script : string) (ns : pydict),
    if String.eqb script "defaults"
    then <["Chunk_Size"%string := PyInt 1]> (<["filter_low"%string := PyInt 500]> ns)
    else <["chunk_size"%string := PyInt 2]> (<["nexcerpts"%string := PyInt 50]> ns) in
  let kwargs : pydict := {[ "nexcerpts"%string := PyInt 3 ]} in
  ∃ d, get_params "defaults" (λ _, Some "prm"%string) ptp (Some "my.prm"%string) kwargs
         = Return d
       ∧ d !! "nexcerpts"%string = Some (PyInt 3)
       ∧ d !! "chunk_size"%string = Some (PyInt 2)
       ∧ d !! "filter_low"%string = Some (PyInt 500)
       ∧ d !! "sample_rate"%string = Some (PyInt 0).
Proof.
  intros ptp kwargs.
  destruct (get_params_returns "defaults" (λ _, Some "prm"%string) ptp
              (Some "my.prm"%string) kwargs) as [d Hd]; [done|by eauto|].
  exists d. split; [done|].
  destruct (get_params_priority _ _ _ _ _ _ Hd) as (file & (script & [= <-] & ->) & Hk & _).
  repeat split; rewrite Hk; by vm_compute.
Defined.

(* ===================================================================== *)
(** * Thresholding *)
(* ===================================================================== *)

Lemma Qlt_bool_iff x y : Qlt_bool x y = true ↔ x < y.
Proof.
  unfold Qlt_bool. rewrite negb_true_iff, <- not_true_iff_false, Qle_bool_iff.
  split; [apply Qnot_le_lt|apply Qlt_not_le].
Qed.





(* ===================================================================== *)
(** * The threshold estimator *)
(* ===================================================================== *)

Lemma elem_of_insert_sorted x y l : y ∈ insert_sorted x l → y = x ∨ y ∈ l.
Proof.
  induction l as [|z l IH]; simpl.
  - intros ->%list_elem_of_singleton. by left.
  - destruct (Qle_bool x z).
    + intros [->|?]%elem_of_cons; [by left|by right].
    + intros [->|[->|?]%IH]%elem_of_cons; [right; left|by left|right; by right].
Qed.

Lemma elem_of_sort_samples x l : x ∈ sort_samples l → x ∈ l.
Proof.
  induction l as [|y l IH]; simpl; [done|].
  intros [->|?%IH]%elem_of_insert_sorted; [left|by right].
Qed.

Lemma median_nonneg l : Forall (λ x, 0 <= x) l → 0 <= median l.
Proof.
  intros Hl. unfold median.
  destruct (sort_samples l !! _) as [x|] eqn:Hx; simpl; [|apply Qle_refl].
  apply list_elem_of_lookup_2, elem_of_sort_samples in Hx.
  by eapply Forall_forall in Hl.
Qed.

Lemma robust_scale_nonneg xs : 0 <= Spec.robust_scale xs.
Proof.
  unfold Spec.robust_scale. apply Qle_shift_div_l; [done|].
  rewrite Qmult_0_l. apply median_nonneg, Forall_fmap, Forall_forall.
  intros x _. apply Qabs_nonneg.
Qed.

(** The estimator returns thresholds with strong ≥ weak, and weak ≥ 0 when
    the weak multiplier is not negative. *)
Lemma get_threshold_ordered excerpts (d : pydict) s wk :
  Spec.get_threshold excerpts d = Return (s, wk) →
  wk <= s
  ∧ ((∀ mw, param d "threshold_weak_multiplier" ≫= as_number = Return mw →
            0 <= mw) → 0 <= wk).
Proof.
  unfold Spec.get_threshold. intros Hret.
  destruct (param d "threshold_strong_multiplier" ≫= as_number) as [|ms]; [done|].
  destruct (param d "threshold_weak_multiplier" ≫= as_number) as [|mw]; [done|].
  simpl in Hret. destruct (Qlt_bool ms mw) eqn:Hlt; [done|].
  injection Hret as <- <-.
  pose proof (robust_scale_nonneg (mjoin (mjoin excerpts))) as Hscale.
  split.
  - rewrite !(Qmult_comm (Spec.robust_scale _)). apply Qmult_le_compat_r; [|done].
    apply Qnot_lt_le. rewrite <- Qlt_bool_iff. by rewrite Hlt.
  - intros Hmw. apply Qmult_le_0_compat; [done|]. by apply Hmw.
Qed.

(** It raises [ConfigError] when the weak multiplier exceeds the strong
    one. *)
Lemma get_threshold_config_error excerpts (d : pydict) ms mw :
  param d "threshold_strong_multiplier" ≫= as_number = Return ms →
  param d "threshold_weak_multiplier" ≫= as_number = Return mw →
  ms < mw →
  ∃ msg, Spec.get_threshold excerpts d = Raise (ConfigError msg).
Proof.
  intros Hms Hmw Hlt. unfold Spec.get_threshold. rewrite Hms, Hmw. simpl.
  apply Qlt_bool_iff in Hlt. rewrite Hlt. by eexists.
Qed.

(* ===================================================================== *)
(** * The adjacency graph *)
(* ===================================================================== *)

Lemma neighbour_link a b G c d :
  neighbour (Spec.link a b G) c d ↔ (c = a ∧ d = b) ∨ neighbour G c d.
Proof.
  unfold neighbour, Spec.link. destruct (decide (a = c)) as [->|Hne].
  - rewrite lookup_total_insert_eq. set_solver.
  - rewrite lookup_total_insert_ne by done. naive_solver.
Qed.

Lemma neighbour_add_edge G e c d :
  neighbour (Spec.add_edge G e) c d
  ↔ (c = e.1 ∧ d = e.2) ∨ (c = e.2 ∧ d = e.1) ∨ neighbour G c d.
Proof. unfold Spec.add_edge. by rewrite !neighbour_link. Qed.

Lemma add_edges_symmetric edges G :
  graph_symmetric G → graph_symmetric (foldl Spec.add_edge G edges).
Proof.
  revert G. induction edges as [|e edges IH]; intros G HG; simpl; [done|].
  apply IH. intros c d. rewrite !neighbour_add_edge. naive_solver.
Qed.

Lemma isolated_no_neighbour chs c d : ¬ neighbour (Spec.isolated chs) c d.
Proof.
  unfold neighbour, Spec.isolated. rewrite lookup_total_alt.
  destruct (list_to_map _ !! c) as [s|] eqn:Hs; simpl; [|set_solver].
  apply elem_of_list_to_map_2, list_elem_of_fmap in Hs as (? & [= -> ->] & _).
  set_solver.
Qed.

Lemma group_graph_symmetric g G :
  Spec.group_graph g = Return G → graph_symmetric G.
Proof.
  unfold Spec.group_graph. case_match; [|done]. intros [= <-].
  apply add_edges_symmetric. intros c d Hcd. by apply isolated_no_neighbour in Hcd.
Qed.

Lemma neighbour_merge G1 G2 c d :
  neighbour (Spec.merge_graphs G1 G2) c d ↔ neighbour G1 c d ∨ neighbour G2 c d.
Proof.
  unfold neighbour, Spec.merge_graphs. rewrite !lookup_total_alt, lookup_union_with.
  destruct (G1 !! c), (G2 !! c); simpl; set_solver.
Qed.

(** The graph of a valid probe is symmetric. *)
Lemma get_adjacency_graph_symmetric prb G :
  Spec.get_adjacency_graph prb = Return G → graph_symmetric G.
Proof.
  destruct prb as [groups|]; [|done]. simpl. revert G.
  induction groups as [|g groups IH]; intros G; simpl.
  - intros [= <-] c d. unfold neighbour. rewrite lookup_total_empty. set_solver.
  - destruct (Spec.group_graph g) as [|G1] eqn:HG1; [done|]. simpl.
    destruct (foldr _ _ groups) as [|G2]; [done|]. simpl. intros [= <-] c d.
    rewrite !neighbour_merge. intros [?|?]; [left|right].
    + by eapply group_graph_symmetric.
    + by eapply IH.
Qed.

Lemma group_graph_unknown g :
  unknown_reference g → ∃ msg, Spec.group_graph g = Raise (ConfigError msg).
Proof.
  intros (e & He & Hch). unfold Spec.group_graph.
  destruct (forallb _ _) eqn:Hall; [|by eexists].
  rewrite forallb_forall in Hall. specialize (Hall e).
  rewrite <- list_elem_of_In in Hall. specialize (Hall He).
  unfold Spec.known_edge in Hall.
  apply andb_true_iff in Hall as [?%bool_decide_eq_true ?%bool_decide_eq_true].
  by destruct Hch.
Qed.

Lemma group_graph_error g e :
  Spec.group_graph g = Raise e → is_config_error e = true.
Proof. unfold Spec.group_graph. case_match; [done|]. by intros [= <-]. Qed.

(** A probe with such a pair is refused with [ConfigError]. *)
Lemma get_adjacency_graph_unknown groups :
  Exists unknown_reference groups →
  ∃ msg, Spec.get_adjacency_graph (Some groups) = Raise (ConfigError msg).
Proof.
  simpl. induction 1 as [g groups Hg|g groups _ IH]; simpl.
  - destruct (group_graph_unknown g Hg) as [msg ->]. by eexists.
  - destruct IH as [msg ->].
    destruct (Spec.group_graph g) as [e|G1] eqn:HG1; simpl; [|by eexists].
    apply group_graph_error in HG1. destruct e; try done. by eexists.
Qed.

(* ===================================================================== *)
(** * Facts about the log of a run *)
(* ===================================================================== *)

Lemma omap_nil_Forall {A B} (P : A → Prop) (f : A → option B) (l : list A) :
  (∀ a, P a → f a = None) → Forall P l → omap f l = [].
Proof.
  intros HP. induction 1 as [|a l Ha _ IH]; simpl; [done|].
  rewrite (HP a Ha). exact IH.
Qed.

Lemma extend_inj w l1 l2 : extend w l1 = extend w l2 → l1 = l2.
Proof. intros [= H]. by apply app_inv_head in H. Qed.


Lemma setup_chunk_requests l : Forall setup_event l → chunk_requests l = [].
Proof. apply omap_nil_Forall. by intros []. Qed.

Lemma chunk_events_requests s wk l :
  Forall (chunk_event s wk) l → chunk_requests l = [].
Proof. apply omap_nil_Forall. by intros []. Qed.

Lemma chunk_events_params s wk l :
  Forall (chunk_event s wk) l → params_read l = [].
Proof. apply omap_nil_Forall. by intros []. Qed.

Lemma setup_params l :
  Forall setup_event l → Forall (λ k, k ∈ params_of_run) (params_read l).
Proof. apply Forall_omap_weaken. intros [] k; simpl; try done. by intros ? [= <-]. Qed.


Lemma threshold_calls_app l1 l2 :
  threshold_calls (l1 ++ l2) = threshold_calls l1 ++ threshold_calls l2.
Proof. apply omap_app. Qed.

Lemma params_read_app l1 l2 :
  params_read (l1 ++ l2) = params_read l1 ++ params_read l2.
Proof. apply omap_app. Qed.

Lemma chunk_requests_app l1 l2 :
  chunk_requests (l1 ++ l2) = chunk_requests l1 ++ chunk_requests l2.
Proof. apply omap_app. Qed.


Lemma loop_params s wk pre d cs co body :
  Forall setup_event pre → Forall (chunk_event s wk) body →
  Forall (λ k, k ∈ params_of_run)
    (params_read (pre ++ CallGetThreshold d :: CallChunks cs co :: body)).
Proof.
  intros Hpre Hbody. rewrite params_read_app.
  change (params_read (CallGetThreshold d :: CallChunks cs co :: body))
    with (params_read body).
  rewrite (chunk_events_params s wk body) by done.
  rewrite app_nil_r. by apply setup_params.
Qed.

Lemma loop_chunk_requests s wk pre d cs co body :
  Forall setup_event pre → Forall (chunk_event s wk) body →
  chunk_requests (pre ++ CallGetThreshold d :: CallChunks cs co :: body)
  = [(cs, co)].
Proof.
  intros Hpre Hbody. rewrite chunk_requests_app.
  change (chunk_requests (CallGetThreshold d :: CallChunks cs co :: body))
    with ((cs, co) :: chunk_requests body).
  rewrite (setup_chunk_requests pre) by done.
  by rewrite (chunk_events_requests s wk body).
Qed.

(** A failure of [get_adjacency_graph] ends the run before any data is
    read. *)
Lemma run_graph_error E raw x (d : pydict) prb e w :
  is_Some (d !! "sample_rate"%string) →
  is_Some (d !! "filter_butter_order"%string) →
  is_Some (d !! "filter_high"%string) →
  is_Some (d !! "filter_low"%string) →
  get_adjacency_graph E prb = Raise e →
  run E raw (Some x) (Some d) prb w
  = (extend w ((ReadParam <$> params_of_run) ++ [CallGetAdjacencyGraph prb]),
     Raise e).
Proof.
  intros [? H1] [? H2] [? H3] [? H4] HG.
  unfold run, mbind, action_mbind, py_assert, getitem, dict_get, call, mret,
    action_ret. simpl. rewrite H1, H2, H3, H4, HG.
  by rewrite !log_extend, !extend_extend.
Qed.

(* ===================================================================== *)
(** * C4: the polarity of the comparison *)
(* ===================================================================== *)



(* ===================================================================== *)
(** * C8: configuration errors *)
(* ===================================================================== *)

(** C8, as amended.  [run] reads six parameters and no other; the chunk
    size ([None] when absent) and the chunk overlap ([0] when absent) reach
    [raw_data.chunks] as they are; when the run ends with [ConfigError]
    before the chunks are requested, one of the imported functions has
    raised it; a failure of [get_adjacency_graph] ends the run before any
    data is read.  [get_adjacency_graph] raises [ConfigError] on a
    neighbour pair with an unknown channel and [get_threshold] when the
    weak multiplier exceeds the strong one. *)
Theorem config_errors_come_from_imports E raw exp prm prb w :
  ∃ l res,
    run E raw exp prm prb w = (extend w l, res)
    ∧ Forall (λ k, k ∈ params_of_run) (params_read l)
    ∧ (∀ cs co, (cs, co) ∈ chunk_requests l →
         ∃ d, prm = Some d
              ∧ cs = default PyNone (d !! "chunk_size"%string)
              ∧ co = default (PyInt 0) (d !! "chunk_overlap"%string))
    ∧ (∀ e, res = Raise e → is_config_error e = true →
         chunk_requests l = [] → raised_in_setup E prb e)
    ∧ (∀ x d e,
         exp = Some x → prm = Some d →
         is_Some (d !! "sample_rate"%string) →
         is_Some (d !! "filter_butter_order"%string) →
         is_Some (d !! "filter_high"%string) →
         is_Some (d !! "filter_low"%string) →
         get_adjacency_graph E prb = Raise e →
         res = Raise e ∧ Forall (λ ev, is_data_access ev = false) l)
    ∧ (∀ groups, Exists unknown_reference groups →
         ∃ msg, Spec.get_adjacency_graph (Some groups) = Raise (ConfigError msg))
    ∧ (∀ excerpts (d : pydict) ms mw,
         param d "threshold_strong_multiplier" ≫= as_number = Return ms →
         param d "threshold_weak_multiplier" ≫= as_number = Return mw →
         ms < mw →
         ∃ msg, Spec.get_threshold excerpts d = Raise (ConfigError msg)).
Proof.
  destruct (run_shape E raw exp prm prb w) as (l & res & Hrun & Hshape).
  exists l, res. split; [done|].
  assert (∀ x d e,
         exp = Some x → prm = Some d →
         is_Some (d !! "sample_rate"%string) →
         is_Some (d !! "filter_butter_order"%string) →
         is_Some (d !! "filter_high"%string) →
         is_Some (d !! "filter_low"%string) →
         get_adjacency_graph E prb = Raise e →
         res = Raise e ∧ Forall (λ ev, is_data_access ev = false) l) as Hgraph.
  { intros x d e -> -> H1 H2 H3 H4 HG.
    rewrite (run_graph_error E raw x d prb e w H1 H2 H3 H4 HG) in Hrun.
    injection Hrun as Hl <-. apply app_inv_head in Hl as <-.
    split; [done|]. by repeat constructor. }
  destruct Hshape as [(e & -> & Hl & _ & Horigin)|Hloop].
  - rewrite (setup_chunk_requests l) by done.
    split; [by apply setup_params|]. split; [by intros ?? ?%elem_of_nil|].
    split; [by intros ? [= <-] ? _; apply Horigin|].
    split; [done|].
    split; [apply get_adjacency_graph_unknown|apply get_threshold_config_error].
  - destruct Hloop as (d & rd & f & s & wk & pre & body & -> & Hthr & -> & Hpre & _ & Hbody).
    rewrite (loop_chunk_requests s wk) by done.
    split; [by eapply loop_params|].
    split; [intros cs co [= -> ->]%list_elem_of_singleton; by exists d|].
    split; [done|]. split; [done|].
    split; [apply get_adjacency_graph_unknown|apply get_threshold_config_error].
Qed.

(** C8 as stated fails: with a negative chunk size, the default chunk
    overlap of [0] and an unknown polarity, the run reads the data,
    computes the thresholds, requests the chunks with these values and
    returns; no [ConfigError] is raised. *)
Lemma unchecked_configuration_runs :
  let m := run with_estimator (Some (RawArray scenario_samples))
             (Some scenario_experiment) (Some unchecked_prm)
             (Some scenario_prb) in
  outcome m = Return ()
  ∧ chunk_requests (log_of m) = [(PyInt (-5), PyInt 0)]
  ∧ params_read (log_of m) = params_of_run.
Proof. by vm_compute. Qed.

(* ===================================================================== *)
(** * C7: the single-channel scenario *)
(* ===================================================================== *)

(** C7.  On the samples 0, 0, -1.5, -2.5, -1.2, 0, 0 of one channel, with
    the weak threshold 1 and the strong threshold 2, the run compares the
    chunk from below against -2 and -1, [connected_components] returns
    the one component of the cells 2 to 4, and the run returns normally
    with no spike emitted, where the scenario has exactly one. *)
Theorem scenario_emits_no_spike :
  let m := scenario_run scenario_samples scenario_prm in
  outcome m = Return ()
  ∧ threshold_calls (log_of m) = [(- (2), below); (- (1), below)]
  ∧ components_found (log_of m) = [scenario_component]
  ∧ length (emitted fresh m) = 0%nat.
Proof. by vm_compute. Qed.

(* ===================================================================== *)
(** * Flood fill computes the connected components *)
(* ===================================================================== *)

Section flood.
Variable G : Graph.
Variable W : gset cell.

Lemma elem_of_expand S b :
  b ∈ Spec.expand G W S ↔ b ∈ S ∨ (b ∈ W ∧ ∃ a, a ∈ S ∧ adjacent G a b).
Proof.
  unfold Spec.expand. rewrite elem_of_union, elem_of_filter.
  unfold set_Exists. naive_solver.
Qed.

Lemma expand_increasing S : S ⊆ Spec.expand G W S.
Proof. intros b Hb. apply elem_of_expand. by left. Qed.

Lemma expand_within S : S ⊆ W → Spec.expand G W S ⊆ W.
Proof. intros HS b [?|[? _]]%elem_of_expand; auto. Qed.

Lemma iter_expand_within seed k :
  seed ∈ W → Nat.iter k (Spec.expand G W) {[ seed ]} ⊆ W.
Proof.
  intros Hseed. induction k as [|k IH]; simpl.
  - by apply singleton_subseteq_l.
  - by apply expand_within.
Qed.

Lemma iter_expand_seed seed k : seed ∈ Nat.iter k (Spec.expand G W) {[ seed ]}.
Proof.
  induction k as [|k IH]; simpl; [by apply elem_of_singleton|].
  by apply expand_increasing.
Qed.

Lemma iter_expand_connected seed k b :
  seed ∈ W → b ∈ Nat.iter k (Spec.expand G W) {[ seed ]} → connected G W seed b.
Proof.
  intros Hseed. revert b. induction k as [|k IH]; simpl; intros b.
  - intros ->%elem_of_singleton. apply rtc_refl.
  - intros [Hb|(Hb & a & Ha & Hadj)]%elem_of_expand; [by apply IH|].
    eapply rtc_r; [apply IH; exact Ha|]. split; [|done].
    exact (iter_expand_within seed k Hseed a Ha).
Qed.

(** After [k] rounds the set is stable or has more than [k] cells. *)
Lemma iter_expand_progress seed k :
  Spec.expand G W (Nat.iter k (Spec.expand G W) {[ seed ]})
  = Nat.iter k (Spec.expand G W) {[ seed ]}
  ∨ (k < size (Nat.iter k (Spec.expand G W) {[ seed ]}))%nat.
Proof.
  induction k as [|k IH].
  - right. change (0 < size ({[ seed ]} : gset cell))%nat.
    rewrite size_singleton. lia.
  - change (Nat.iter (S k) (Spec.expand G W) {[ seed ]})
      with (Spec.expand G W (Nat.iter k (Spec.expand G W) {[ seed ]})).
    set (S := Nat.iter k (Spec.expand G W) {[ seed ]}) in *.
    destruct (decide (Spec.expand G W S = S)) as [Heq|Hne].
    + left. by rewrite !Heq.
    + right. destruct IH as [?|Hk]; [done|].
      assert (S ⊂ Spec.expand G W S) as Hlt%subset_size; [|lia].
      split; [apply expand_increasing|]. intros Hsub. apply Hne.
      apply set_eq. intros b. split; [apply Hsub|apply expand_increasing].
Qed.

Lemma flood_stable seed :
  seed ∈ W → Spec.expand G W (Spec.flood G W seed) = Spec.flood G W seed.
Proof.
  intros Hseed. destruct (iter_expand_progress seed (size W)) as [?|Hlt]; [done|].
  pose proof (subseteq_size _ _ (iter_expand_within seed (size W) Hseed)). lia.
Qed.

(** The flood from a weak cell is the set of the weak cells connected to
    it. *)
Lemma elem_of_flood seed b :
  seed ∈ W → b ∈ Spec.flood G W seed ↔ connected G W seed b.
Proof.
  intros Hseed. split; [by apply iter_expand_connected|].
  revert b. apply rtc_ind_r.
  - apply iter_expand_seed.
  - intros y z _ (_ & Hz & Hadj) IH.
    rewrite <- flood_stable by done. apply elem_of_expand. right. eauto.
Qed.

Lemma flood_is_component seed :
  seed ∈ W → is_component G W (Spec.flood G W seed).
Proof. intros Hseed. exists seed. split; [done|]. intros b. by apply elem_of_flood. Qed.

(** Every labelled component is the flood from a cell of the list. *)
Lemma elem_of_label todo seen comp :
  comp ∈ Spec.label G W todo seen →
  ∃ c, c ∈ todo ∧ comp = Spec.flood G W c.
Proof.
  revert seen. induction todo as [|c todo IH]; intros seen; simpl.
  - by intros ?%elem_of_nil.
  - case_decide.
    + intros (c' & ? & ?)%IH. exists c'. split; [by right|done].
    + intros [->|(c' & ? & ?)%IH]%elem_of_cons.
      * exists c. split; [by left|done].
      * exists c'. split; [by right|done].
Qed.

(** Every cell of the list is seen already or in a labelled component. *)
Lemma label_covers todo seen c :
  c ∈ todo →
  c ∈ seen ∨ ∃ comp, comp ∈ Spec.label G W todo seen ∧ c ∈ comp.
Proof.
  revert seen. induction todo as [|c0 todo IH]; intros seen; simpl.
  - by intros ?%elem_of_nil.
  - intros [->|Hc]%elem_of_cons.
    + case_decide; [by left|]. right. exists (Spec.flood G W c0).
      split; [by left|apply iter_expand_seed].
    + case_decide; [by apply IH|].
      destruct (IH (Spec.flood G W c0 ∪ seen) Hc) as [[?|?]%elem_of_union|(comp & ? & ?)].
      * right. exists (Spec.flood G W c0). split; [by left|done].
      * by left.
      * right. exists comp. split; [by right|done].
Qed.
End flood.

Lemma elem_of_weak_cells (chunk_weak : Grid) c :
  c ∈ weak_cells chunk_weak ↔ c ∈ nonzero chunk_weak.
Proof. apply elem_of_list_to_set. Qed.

Lemma adjacent_symmetric G a b :
  graph_symmetric G → adjacent G a b → adjacent G b a.
Proof.
  intros HG [[? ?] [Heq|Hn]]. split; [done|].
  destruct (decide (b.2 = a.2)); [by left|right; by apply HG].
  split; [done|]. right. by apply HG.
Qed.

Lemma connected_symmetric G W :
  graph_symmetric G → Symmetric (connected G W).
Proof.
  intros HG. assert (Symmetric (weak_link G W)).
  { intros a b (? & ? & ?). split; [done|]. split; [done|].
    by apply adjacent_symmetric. }
  unfold connected. apply _.
Qed.

(** The weak components are components, and every component is among
    them. *)
Lemma weak_components_sound G (chunk_weak : Grid) comp :
  comp ∈ Spec.weak_components G chunk_weak →
  is_component G (weak_cells chunk_weak) comp.
Proof.
  intros (c & Hc & ->)%elem_of_label. apply flood_is_component.
  by apply elem_of_weak_cells.
Qed.

Lemma weak_components_complete G (chunk_weak : Grid) C :
  graph_symmetric G →
  is_component G (weak_cells chunk_weak) C →
  C ∈ Spec.weak_components G chunk_weak.
Proof.
  intros HG (a & Ha & HC).
  pose proof (connected_symmetric G (weak_cells chunk_weak) HG) as Hsym.
  destruct (label_covers G (weak_cells chunk_weak) (nonzero chunk_weak) ∅ a)
    as [?|(comp & Hcomp & Hacomp)]; [by apply elem_of_weak_cells|set_solver|].
  destruct (elem_of_label _ _ _ _ _ Hcomp) as (c & Hc%elem_of_weak_cells & ->).
  apply elem_of_flood in Hacomp; [|done].
  replace C with (Spec.flood G (weak_cells chunk_weak) c); [done|].
  apply set_eq. intros b. rewrite HC, elem_of_flood by done. split.
  - intros Hb. etrans; [by symmetry|done].
  - intros Hb. by etrans.
Qed.

(* ===================================================================== *)
(** * C3: components without a strong cell are discarded *)
(* ===================================================================== *)

Lemma elem_of_connected_components (chunk_strong chunk_weak : Grid) G prm comp :
  comp ∈ Spec.connected_components chunk_strong chunk_weak G prm
  ↔ (∃ c, c ∈ comp ∧ c ∈ nonzero chunk_strong)
    ∧ comp ∈ Spec.weak_components G chunk_weak.
Proof.
  unfold Spec.connected_components. rewrite list_elem_of_filter.
  unfold Spec.has_strong, set_Exists. naive_solver.
Qed.

(** C3.  A connected component of the weak cells of a chunk is among the
    components the detector returns if and only if one of its cells is a
    strong cell; a component without a strong cell is not returned, and
    what is returned is a component. *)
Theorem strong_components_kept (chunk_strong chunk_weak : Grid) G prm C :
  graph_symmetric G →
  is_component G (weak_cells chunk_weak) C →
  (C ∈ Spec.connected_components chunk_strong chunk_weak G prm
   ↔ ∃ c, c ∈ C ∧ c ∈ nonzero chunk_strong)
  ∧ ((∀ c, c ∈ C → c ∉ nonzero chunk_strong) →
     C ∉ Spec.connected_components chunk_strong chunk_weak G prm)
  ∧ (∀ comp, comp ∈ Spec.connected_components chunk_strong chunk_weak G prm →
       is_component G (weak_cells chunk_weak) comp).
Proof.
  intros HG HC.
  pose proof (weak_components_complete G chunk_weak C HG HC) as Hin.
  split; [|split].
  - rewrite elem_of_connected_components. naive_solver.
  - intros Hnone (Hstrong & _)%elem_of_connected_components.
    destruct Hstrong as (c & Hc & Hs). by apply (Hnone c).
  - intros comp (_ & Hcomp)%elem_of_connected_components.
    by apply weak_components_sound.
Qed.

(** The grids of the scenario, over the graph of its one channel. *)
Lemma strong_components_kept_witness :
  let G : Graph := {[ 0%nat := ∅ ]} in
  let chunk_strong := Spec.apply_threshold scenario_samples (- (2)) below in
  let chunk_weak := Spec.apply_threshold scenario_samples (- (1)) below in
  let C := Spec.flood G (weak_cells chunk_weak) (2, 0)%nat in
  graph_symmetric G
  ∧ is_component G (weak_cells chunk_weak) C
  ∧ C = scenario_component
  ∧ (C ∈ Spec.connected_components chunk_strong chunk_weak G scenario_prm
     ↔ ∃ c, c ∈ C ∧ c ∈ nonzero chunk_strong).
Proof.
  intros G chunk_strong chunk_weak C.
  assert (graph_symmetric G) as HG.
  { by apply (get_adjacency_graph_symmetric (Some scenario_prb)). }
  assert (is_component G (weak_cells chunk_weak) C) as HC.
  { apply flood_is_component. apply (bool_decide_unpack _). by vm_compute. }
  split; [exact HG|]. split; [exact HC|]. split; [by vm_compute|].
  exact (proj1 (strong_components_kept chunk_strong chunk_weak G scenario_prm
                  C HG HC)).
Defined.

(* ===================================================================== *)
(** * C6: the mask of a channel *)
(* ===================================================================== *)


(* ===================================================================== *)
(** * Every run stops in the set-up or enters the loop *)
(* ===================================================================== *)

Lemma first_missing_none (d : pydict) :
  first_missing d = None →
  is_Some (d !! "sample_rate"%string)
  ∧ is_Some (d !! "filter_butter_order"%string)
  ∧ is_Some (d !! "filter_high"%string)
  ∧ is_Some (d !! "filter_low"%string).
Proof. unfold first_missing. repeat case_match; naive_solver. Qed.

Lemma val_lookup (d : pydict) k v : d !! k = Some v → val d k = v.
Proof. unfold val. by intros ->. Qed.

Ltac solve_first_missing :=
  unfold first_missing;
  repeat match goal with H : _ !! _ = _ |- _ => rewrite H end; done.

Lemma check_keywords_no_clash {A} fname names d (c : result A) a :
  check_keywords fname names d c = Return a →
  keyword_clash names d = None ∧ c = Return a.
Proof. unfold check_keywords. by case_match. Qed.

Ltac solve_premise :=
  first [done | reflexivity | eassumption | solve_first_missing].

Lemma run_cases E raw exp prm prb w :
  (∃ l e, run_stops E raw exp prm prb l e
          ∧ run E raw exp prm prb w = (extend w l, Raise e))
  ∨ (∃ c, run_loops E raw exp prm prb c
          ∧ run E raw exp prm prb w
            = run_loop E c (extend w (setup_log (su_prm c) prb raw))).
Proof.
  destruct exp as [x|];
    [|left; eexists _, _; split; [by apply stop_no_experiment|];
      by rewrite extend_nil].
  unfold run, mbind, action_mbind, py_assert, getitem, dict_get, unpack,
    call, raise, mret, action_ret.
  repeat case_match; simplify_eq; rewrite ?log_extend, ?extend_extend;
    simpl app;
    repeat match goal with
           | H : ?d !! ?k = Some ?v |- _ =>
               is_var v; apply val_lookup in H as Hval; subst v
           end.
  all: try (left; eexists _, _;
    match goal with
    | |- run_stops _ _ _ None _ _ _ ∧ _ =>
        split; [by eapply stop_no_prm|by rewrite extend_nil]
    | |- run_stops _ _ _ (Some ?d) _ _ _ ∧ (_, Raise (KeyError ?k)) = _ =>
        split; [eapply (stop_missing _ _ _ _ _ x d k); solve_premise|reflexivity]
    | |- run_stops _ _ _ (Some ?d) _ _ _ ∧ _ =>
        first
          [ split; [eapply (stop_graph _ _ _ _ _ x d); solve_premise|reflexivity]
          | split; [eapply (stop_read_raw _ _ _ _ _ x d); solve_premise|reflexivity]
          | split; [eapply (stop_bandpass _ _ _ _ _ x d); solve_premise|reflexivity]
          | split; [eapply (stop_threshold _ _ _ _ _ x d); solve_premise|reflexivity] ]
    end).
  all: right;
    match goal with
    | Hc : check_keywords _ _ ?d (get_threshold _ ?rd ?f _) = Return (?s, ?wk),
      HG : get_adjacency_graph _ _ = Return ?G,
      Hch : chunks _ _ _ _ = (?cs, ?stop) |- _ =>
        exists (MkSetup E d G rd f s wk cs stop);
        apply check_keywords_no_clash in Hc as [Hclash Hthr]
    end;
    (split; [|reflexivity]);
    unfold run_loops; simpl;
    repeat (split; [solve_premise|]); solve_premise.
Qed.

Lemma first_missing_some (d : pydict) k :
  first_missing d = Some k →
  d !! k = None
  ∧ k ∈ ["sample_rate"; "filter_butter_order"; "filter_high"; "filter_low"]%string.
Proof.
  unfold first_missing. repeat case_match; intros [= <-]; (split; [done|]);
    set_solver.
Qed.

Lemma run_loop_log E (c : setup_result E) w :
  ∃ body res,
    run_loop E c w = (extend w body, res)
    ∧ Forall (chunk_event (su_strong c) (su_weak c)) body.
Proof. apply for_each_log. Qed.

(* ===================================================================== *)
(** * Errors in the parameters *)
(* ===================================================================== *)

(** X1.  Given an experiment, [run] fails on its parameters before it
    calls anything: with [prm=None] it raises [TypeError] at once, and
    with a dictionary that lacks one of [sample_rate],
    [filter_butter_order], [filter_high], [filter_low] it raises
    [KeyError] for the first missing one, having only read parameters up
    to that one. *)
Theorem run_parameter_errors E raw x prb w :
  run E raw (Some x) None prb w
  = (w, Raise (TypeError "'NoneType' object is not subscriptable"))
  ∧ ∀ d k,
      first_missing d = Some k →
      run E raw (Some x) (Some d) prb w
      = (extend w (reads_to k), Raise (KeyError k))
      ∧ d !! k = None
      ∧ Forall (λ e, phase e = 0%nat) (reads_to k)
      ∧ last (reads_to k) = Some (ReadParam k).
Proof.
  split; [done|]. intros d k Hk.
  destruct (first_missing_some d k Hk) as [Hdk Hin].
  split; [|split; [done|]].
  - destruct (run_cases E raw (Some x) (Some d) prb w)
      as [(l & e & Hstop & ->)|(c & Hloop & _)].
    + inversion Hstop; simplify_eq; done.
    + destruct Hloop as (_ & [= <-] & Hnone & _). congruence.
  - set_unfold in Hin.
    destruct Hin as [->|[->|[->|[->|[]]]]]; (split; [by repeat constructor|done]).
Qed.

(** The parameters of the scenario without [filter_high]: the run reads
    the five parameters up to it and raises [KeyError]. *)
Lemma run_parameter_errors_witness :
  let E := with_thresholds 2 1 in
  let raw : option (raw_input (Reader E)) := Some (RawArray scenario_samples) in
  let d : pydict := delete "filter_high"%string scenario_prm in
  first_missing d = Some "filter_high"%string
  ∧ run E raw (Some scenario_experiment) (Some d) (Some scenario_prb) fresh
    = (extend fresh (reads_to "filter_high"), Raise (KeyError "filter_high"))
  ∧ d !! "filter_high"%string = None
  ∧ Forall (λ e, phase e = 0%nat) (reads_to "filter_high")
  ∧ last (reads_to "filter_high") = Some (ReadParam "filter_high").
Proof.
  intros E raw d.
  assert (first_missing d = Some "filter_high"%string) as H by by vm_compute.
  split; [exact H|].
  exact (proj2 (run_parameter_errors E raw scenario_experiment
                  (Some scenario_prb) fresh) d "filter_high"%string H).
Defined.

(* ===================================================================== *)
(** * The order of the calls *)
(* ===================================================================== *)

Lemma phase_le_6 e : (phase e ≤ 6)%nat.
Proof. destruct e; simpl; lia. Qed.

Lemma chunk_event_phase s wk e : chunk_event s wk e → phase e = 6%nat.
Proof. by destruct e. Qed.

Lemma same_phase_sorted l :
  Forall (λ e, phase e = 6%nat) l →
  StronglySorted (λ e1 e2, phase e1 ≤ phase e2)%nat l.
Proof.
  induction 1 as [|e l He Hl IH]; constructor; [done|].
  eapply Forall_impl; [exact Hl|]. simpl. intros e' ->. apply phase_le_6.
Qed.

Lemma StronglySorted_lookup {A} (R : relation A) l i j x y :
  StronglySorted R l → (i < j)%nat →
  l !! i = Some x → l !! j = Some y → R x y.
Proof.
  intros Hl. revert i j. induction Hl as [|a l _ IH Ha]; intros i j Hij; [done|].
  destruct j as [|j]; [lia|]. destruct i as [|i]; simpl.
  - intros [= <-] Hy. eapply Forall_forall in Ha; [done|].
    by eapply list_elem_of_lookup_2.
  - apply IH. lia.
Qed.

Lemma setup_log_sorted {R} d prb (raw : option (raw_input R)) l :
  l `prefix_of` setup_log d prb raw →
  StronglySorted (λ e1 e2, phase e1 ≤ phase e2)%nat l.
Proof.
  intros [k Hk]. apply (StronglySorted_app_1_l _ l k). rewrite <- Hk.
  unfold setup_log, param_reads, bandpass_call, chunks_call.
  destruct raw as [[]|]; simpl;
    repeat (apply SSorted_cons;
            [|repeat (apply List.Forall_cons; [simpl; lia|]); apply List.Forall_nil]);
    apply SSorted_nil.
Qed.

Lemma run_stops_prefix E raw exp prm prb l e :
  run_stops E raw exp prm prb l e →
  ∀ d, prm = Some d → l `prefix_of` setup_log d prb raw.
Proof.
  intros Hstop d Hd. unfold setup_log.
  inversion Hstop; simplify_eq; try apply prefix_nil.
  - match goal with H : first_missing _ = Some _ |- _ =>
      apply first_missing_some in H as [_ Hin] end.
    set_unfold in Hin.
    destruct Hin as [->|[->|[->|[->|[]]]]]; by eexists.
  - apply prefix_app, prefix_cons, prefix_nil.
  - match goal with H : reader_of _ _ _ = Raise _ |- _ =>
      destruct raw as [[]|]; [done|..] end; by eexists.
  - apply prefix_app, prefix_cons, prefix_app. by eexists.
  - apply prefix_app, prefix_cons, prefix_app. by eexists.
Qed.

(** X2.  In every run the calls follow the stages of main.py: the
    parameters are read first, then the adjacency graph is built, then the
    raw data is opened, the filter designed, the thresholds computed and
    the chunks requested; the work on the chunks comes last.  No event of a
    later stage precedes one of an earlier stage. *)
Theorem run_phases_ordered E raw exp prm prb w :
  ∃ l res,
    run E raw exp prm prb w = (extend w l, res)
    ∧ ∀ i j e1 e2,
        (i < j)%nat → l !! i = Some e1 → l !! j = Some e2 →
        (phase e1 ≤ phase e2)%nat.
Proof.
  assert (∃ l res, run E raw exp prm prb w = (extend w l, res)
    ∧ StronglySorted (λ e1 e2, phase e1 ≤ phase e2)%nat l) as (l & res & Hrun & Hl).
  { destruct (run_cases E raw exp prm prb w)
      as [(l & e & Hstop & ->)|(c & Hloop & ->)].
    - exists l, (Raise e). split; [done|].
      destruct prm as [d|].
      + eapply setup_log_sorted. by eapply run_stops_prefix.
      + inversion Hstop; simplify_eq; constructor.
    - destruct (run_loop_log E c (extend w (setup_log (su_prm c) prb raw)))
        as (body & res & -> & Hbody).
      rewrite extend_extend. eexists _, _. split; [done|].
      apply StronglySorted_app. split; [|split].
      + intros e1 e2 _ He2. eapply Forall_forall in Hbody; [|done].
        apply chunk_event_phase in Hbody as ->. apply phase_le_6.
      + by eapply setup_log_sorted.
      + apply same_phase_sorted. eapply Forall_impl; [done|].
        apply chunk_event_phase. }
  exists l, res. split; [done|]. intros i j e1 e2.
  apply (StronglySorted_lookup (λ e1 e2, phase e1 ≤ phase e2)%nat l i j e1 e2 Hl).
Qed.

(* ===================================================================== *)
(** * Opening the raw data *)
(* ===================================================================== *)

Lemma reads_to_phase k : Forall (λ e, phase e ≤ 2)%nat (reads_to k).
Proof. unfold reads_to. apply Forall_fmap, Forall_forall. intros; simpl; lia. Qed.

Lemma reads_to_no_read_raw k : Forall (λ e, is_read_raw e = false) (reads_to k).
Proof. unfold reads_to. by apply Forall_fmap, Forall_forall. Qed.

Lemma chunk_events_no_read_raw s wk body :
  Forall (chunk_event s wk) body → Forall (λ e, is_read_raw e = false) body.
Proof. intros H. eapply Forall_impl; [exact H|]. by intros []. Qed.

Ltac solve_forall :=
  repeat (apply List.Forall_cons; [simpl; first [done | lia]|]);
  apply List.Forall_nil.

Ltac low_phase H Hph :=
  exfalso; revert Hph;
  repeat (apply elem_of_cons in H as [->|H]; [simpl; lia|]);
  by apply elem_of_nil in H.

(** X3.  A reader given as [raw_data] is used as it is: [read_raw] is not
    called.  Otherwise [read_raw] is called, on the raw data or, when
    there is none, on the experiment: a run that gets as far as designing
    the filter has a reader from it, and when it raises, after the graph
    was built, the run ends with its exception right after the call. *)
Theorem read_raw_dispatch E raw exp prm prb w :
  ∃ l res,
    run E raw exp prm prb w = (extend w l, res)
    ∧ (∀ r, raw = Some (RawReader r) → Forall (λ e, is_read_raw e = false) l)
    ∧ (∀ e, e ∈ l → (3 ≤ phase e)%nat →
         (∃ rd, reader_of E raw exp = Return rd)
         ∧ ((∀ r, raw ≠ Some (RawReader r)) → CallReadRaw ∈ l))
    ∧ (∀ x d G e,
         exp = Some x → prm = Some d → first_missing d = None →
         get_adjacency_graph E prb = Return G →
         reader_of E raw exp = Raise e →
         res = Raise e ∧ last l = Some CallReadRaw).
Proof.
  destruct (run_cases E raw exp prm prb w)
    as [(l & e & Hstop & ->)|(c & Hloop & ->)].
  - exists l, (Raise e). split; [done|]. split; [|split].
    + intros r ->. inversion Hstop; simplify_eq; simpl;
        first [apply reads_to_no_read_raw | solve_forall].
    + intros ev Hev Hph. inversion Hstop; simplify_eq.
      * by apply elem_of_nil in Hev.
      * by apply elem_of_nil in Hev.
      * pose proof (reads_to_phase k) as Hk.
        eapply Forall_forall in Hk; [|done]. lia.
      * low_phase Hev Hph.
      * low_phase Hev Hph.
      * split; [by eexists|]. intros Hraw.
        destruct raw as [[]|]; simpl; [by destruct (Hraw r)|set_solver..].
      * split; [by eexists|]. intros Hraw.
        destruct raw as [[]|]; simpl; [by destruct (Hraw r)|set_solver..].
    + intros x d G e' -> -> Hnone HG Hrd.
      inversion Hstop; simplify_eq; try congruence.
      split; [congruence|done].
  - destruct (run_loop_log E c (extend w (setup_log (su_prm c) prb raw)))
      as (body & res & -> & Hbody).
    rewrite extend_extend. eexists _, _. split; [done|].
    destruct Hloop as (_ & _ & _ & _ & Hrd & _).
    split; [|split].
    + intros r ->. apply Forall_app. split; [unfold setup_log; simpl; solve_forall|].
      by eapply chunk_events_no_read_raw.
    + intros ev _ _. split; [by eexists|]. intros Hraw.
      apply elem_of_app. left. unfold setup_log.
      destruct raw as [[]|]; simpl; [by destruct (Hraw r)|set_solver..].
    + intros x d G e' _ _ _ _ Hrd'. congruence.
Qed.

(* ===================================================================== *)
(** * Parameters that clash with a keyword of a call *)
(* ===================================================================== *)

Lemma keyword_clash_singleton (d : pydict) k :
  is_Some (d !! k) → keyword_clash [k] d = Some k.
Proof.
  intros Hk. unfold keyword_clash. rewrite filter_cons_True; [done|].
  by apply bool_decide_pack.
Qed.

Lemma check_keywords_clash {A} fname names d (c : result A) k :
  keyword_clash names d = Some k →
  ∃ msg, check_keywords fname names d c = Raise (TypeError msg).
Proof. unfold check_keywords. intros ->. by eexists. Qed.

Lemma no_get_threshold_low_phase l d :
  Forall (λ e, phase e ≤ 3)%nat l → CallGetThreshold d ∉ l.
Proof.
  intros Hl Hin. eapply Forall_forall in Hl; [|done]. simpl in Hl. lia.
Qed.

(** X4.  A parameter dictionary with the key [filter] cannot be run: the
    call of [get_threshold] repeats the keyword, so the run never requests
    a chunk, always ends with an exception, and that exception is
    [TypeError] whenever the run gets as far as that call. *)
Theorem filter_keyword_clash E raw exp (d : pydict) prb w :
  is_Some (d !! "filter"%string) →
  ∃ l e,
    run E raw exp (Some d) prb w = (extend w l, Raise e)
    ∧ Forall (λ ev, phase ev ≤ 4)%nat l
    ∧ (CallGetThreshold d ∈ l → ∃ msg, e = TypeError msg).
Proof.
  intros Hfilter. apply keyword_clash_singleton in Hfilter.
  destruct (run_cases E raw exp (Some d) prb w)
    as [(l & e & Hstop & ->)|(c & Hloop & _)].
  - exists l, e. split; [done|].
    inversion Hstop; simplify_eq.
    + split; [constructor|by intros ?%elem_of_nil].
    + pose proof (reads_to_phase k) as Hk. split.
      * eapply Forall_impl; [exact Hk|]. simpl. intros; lia.
      * intros Hin. eapply Forall_forall in Hk; [|done]. simpl in Hk. lia.
    + split; [simpl; solve_forall|].
      intros Hin. exfalso. revert Hin. apply no_get_threshold_low_phase.
      simpl. solve_forall.
    + split; [simpl; solve_forall|].
      intros Hin. exfalso. revert Hin. apply no_get_threshold_low_phase.
      simpl. solve_forall.
    + split; [destruct raw as [[]|]; simpl; solve_forall|].
      intros Hin. exfalso. revert Hin. apply no_get_threshold_low_phase.
      destruct raw as [[]|]; simpl; solve_forall.
    + split; [destruct raw as [[]|]; simpl; solve_forall|]. intros _.
      match goal with H : check_keywords _ _ ?d' ?c = Raise _ |- _ =>
        destruct (check_keywords_clash "get_threshold" ["filter"%string] d'
                    c _ Hfilter) as [msg Hmsg];
        rewrite Hmsg in H; injection H as <- end.
      by eexists.
  - destruct Hloop as (_ & [= <-] & _ & _ & _ & _ & Hno & _). congruence.
Qed.

(** The parameters of the scenario with a [filter] entry. *)
Lemma filter_keyword_clash_witness :
  let d : pydict := <["filter"%string := PyStr "butter"]> scenario_prm in
  is_Some (d !! "filter"%string)
  ∧ ∃ l e,
      run (with_thresholds 2 1) (Some (RawArray scenario_samples))
        (Some scenario_experiment) (Some d) (Some scenario_prb) fresh
      = (extend fresh l, Raise e)
      ∧ Forall (λ ev, phase ev ≤ 4)%nat l
      ∧ (CallGetThreshold d ∈ l → ∃ msg, e = TypeError msg).
Proof.
  intros d. assert (is_Some (d !! "filter"%string)) as H by by eexists.
  split; [exact H|].
  exact (filter_keyword_clash (with_thresholds 2 1)
           (Some (RawArray scenario_samples)) (Some scenario_experiment) d
           (Some scenario_prb) fresh H).
Defined.

Lemma extend_self w l : w = extend w l → l = [].
Proof. intros H. apply (extend_inj w). by rewrite extend_nil. Qed.

Lemma keyword_clash_elem names (d : pydict) k :
  k ∈ names → is_Some (d !! k) → ∃ k', keyword_clash names d = Some k'.
Proof.
  intros Hk Hd. unfold keyword_clash.
  destruct (filter _ names) as [|k' l] eqn:Hf; [|by eexists].
  assert (k ∈ filter (λ k, bool_decide (is_Some (d !! k))) names) as Hin.
  { apply list_elem_of_filter. split; [by apply bool_decide_pack|done]. }
  rewrite Hf in Hin. by apply elem_of_nil in Hin.
Qed.

Lemma components_found_app l1 l2 :
  components_found (l1 ++ l2) = components_found l1 ++ components_found l2.
Proof. unfold components_found. by rewrite omap_app, join_app. Qed.

Lemma low_phase_no_components l :
  Forall (λ e, phase e ≤ 5)%nat l →
  components_found l = [] ∧ ¬ Exists (λ e, is_components_call e = true) l.
Proof.
  induction 1 as [|e l He _ [IH1 IH2]]; [split; [done|by intros ?%Exists_nil]|].
  split.
  - destruct e; simpl in *; try done; lia.
  - intros [Hc|Hc]%Exists_cons; [|done]. destruct e; simpl in *; try done; lia.
Qed.

Lemma setup_log_phase {R} d prb (raw : option (raw_input R)) :
  Forall (λ e, phase e ≤ 5)%nat (setup_log d prb raw).
Proof. unfold setup_log. destruct raw as [[]|]; simpl; solve_forall. Qed.

Lemma run_stops_phase E raw exp prm prb l e :
  run_stops E raw exp prm prb l e → Forall (λ ev, phase ev ≤ 5)%nat l.
Proof.
  intros Hstop. destruct prm as [d|].
  - destruct (run_stops_prefix E raw exp (Some d) prb l e Hstop d eq_refl) as [k Hk].
    pose proof (setup_log_phase d prb raw) as Hall.
    rewrite Hk in Hall. by apply Forall_app in Hall as [? _].
  - inversion Hstop; simplify_eq; constructor.
Qed.

Lemma process_chunk_clash E f s wk G (d : pydict) chunk w k :
  keyword_clash ["chunk_strong"; "chunk_weak"; "graph"]%string d = Some k →
  ∃ body e,
    process_chunk E f s wk G d chunk w = (extend w body, Raise e)
    ∧ components_found body = []
    ∧ (Exists (λ ev, is_components_call ev = true) body →
       ∃ msg, e = TypeError msg).
Proof.
  intros Hclash.
  unfold process_chunk, mbind, action_mbind, call, mret, action_ret,
    check_keywords.
  rewrite Hclash.
  repeat case_match; simplify_eq; rewrite ?log_extend, ?extend_extend;
    simpl app; eexists _, _; (split; [reflexivity|]); (split; [done|]);
    intros Hex; repeat (apply Exists_cons in Hex as [Hex|Hex]; [done|]);
    try (by apply Exists_nil in Hex); by eexists.
Qed.

Lemma for_each_clash E f s wk G (d : pydict) cs stop w k :
  keyword_clash ["chunk_strong"; "chunk_weak"; "graph"]%string d = Some k →
  ∃ body res,
    for_each cs stop (process_chunk E f s wk G d) w = (extend w body, res)
    ∧ components_found body = []
    ∧ (res = Return () → cs = [])
    ∧ (Exists (λ ev, is_components_call ev = true) body →
       ∃ msg, res = Raise (TypeError msg)).
Proof.
  intros Hclash. destruct cs as [|c cs]; simpl.
  - exists [], (match stop with Some e => Raise e | None => Return () end).
    rewrite extend_nil. split; [by destruct stop|]. split; [done|].
    split; [done|]. by intros ?%Exists_nil.
  - unfold mbind, action_mbind.
    destruct (process_chunk_clash E f s wk G d c w k Hclash)
      as (body & e & -> & Hfound & Hcall).
    exists body, (Raise e). split; [done|]. split; [done|]. split; [done|].
    intros (msg & ->)%Hcall. by eexists.
Qed.

(** X5.  A parameter dictionary with one of the keys [chunk_strong],
    [chunk_weak], [graph] yields no component: the call of
    [connected_components] repeats the keyword, so the first such call
    ends the run with [TypeError], and the run returns normally only when
    the recording has no chunk at all. *)
Theorem components_keyword_clash E raw exp (d : pydict) prb w k :
  k ∈ ["chunk_strong"; "chunk_weak"; "graph"]%string →
  is_Some (d !! k) →
  ∃ l res,
    run E raw exp (Some d) prb w = (extend w l, res)
    ∧ components_found l = []
    ∧ (res = Return () → Forall (λ ev, phase ev ≤ 5)%nat l)
    ∧ (Exists (λ ev, is_components_call ev = true) l →
       ∃ msg, res = Raise (TypeError msg)).
Proof.
  intros Hk Hd. destruct (keyword_clash_elem _ d k Hk Hd) as [k' Hclash].
  destruct (run_cases E raw exp (Some d) prb w)
    as [(l & e & Hstop & ->)|(c & Hloop & ->)].
  - exists l, (Raise e). split; [done|].
    destruct (low_phase_no_components l (run_stops_phase _ _ _ _ _ _ _ Hstop))
      as [Hfound Hcall].
    split; [done|]. split; [done|]. by intros ?%Hcall.
  - destruct Hloop as (_ & [= ->] & _).
    destruct (for_each_clash E (su_filter c) (su_strong c) (su_weak c)
                (su_graph c) (su_prm c) (su_chunks c) (su_stop c)
                (extend w (setup_log (su_prm c) prb raw)) k' Hclash)
      as (body & res & Hrun & Hfound & Hret & Hcall).
    unfold run_loop. rewrite Hrun, extend_extend.
    destruct (low_phase_no_components _ (setup_log_phase (su_prm c) prb raw))
      as [Hsetup Hnocall].
    exists (setup_log (su_prm c) prb raw ++ body), res. split; [done|].
    split; [by rewrite components_found_app, Hsetup, Hfound|]. split.
    + intros Hres. rewrite (Hret Hres) in Hrun. cbn [for_each] in Hrun.
      assert (body = []) as ->.
      { destruct (su_stop c); apply (f_equal fst) in Hrun;
          unfold raise, mret, action_ret in Hrun; cbn [fst] in Hrun;
          by apply extend_self in Hrun. }
      rewrite app_nil_r. apply setup_log_phase.
    + intros [?|?]%Exists_app; [done|by apply Hcall].
Qed.

(** The parameters of the scenario with a [graph] entry. *)
Lemma components_keyword_clash_witness :
  let d : pydict := <["graph"%string := PyInt 1]> scenario_prm in
  "graph"%string ∈ ["chunk_strong"; "chunk_weak"; "graph"]%string
  ∧ is_Some (d !! "graph"%string)
  ∧ ∃ l res,
      run (with_thresholds 2 1) (Some (RawArray scenario_samples))
        (Some scenario_experiment) (Some d) (Some scenario_prb) fresh
      = (extend fresh l, res)
      ∧ components_found l = []
      ∧ (res = Return () → Forall (λ ev, phase ev ≤ 5)%nat l)
      ∧ (Exists (λ ev, is_components_call ev = true) l →
         ∃ msg, res = Raise (TypeError msg)).
Proof.
  intros d.
  assert ("graph"%string ∈ ["chunk_strong"; "chunk_weak"; "graph"]%string) as H1
    by set_solver.
  assert (is_Some (d !! "graph"%string)) as H2 by by eexists.
  split; [exact H1|]. split; [exact H2|].
  exact (components_keyword_clash (with_thresholds 2 1)
           (Some (RawArray scenario_samples)) (Some scenario_experiment) d
           (Some scenario_prb) fresh "graph" H1 H2).
Defined.

(* ===================================================================== *)
(** * The loop over the chunks *)
(* ===================================================================== *)

Ltac same_result :=
  repeat match goal with
         | H1 : ?x = Return _, H2 : ?x = Return _ |- _ =>
             rewrite H1 in H2; simplify_eq
         | H1 : ?x = (_, _), H2 : ?x = (_, _) |- _ =>
             rewrite H1 in H2; simplify_eq
         end.

Lemma run_loops_inj E raw exp prm prb (c c' : setup_result E) :
  run_loops E raw exp prm prb c → run_loops E raw exp prm prb c' → c = c'.
Proof.
  destruct c, c'. unfold run_loops. simpl.
  intros (_ & H1 & _ & H2 & H3 & H4 & _ & H5 & H6)
         (_ & H1' & _ & H2' & H3' & H4' & _ & H5' & H6').
  simplify_eq. same_result. done.
Qed.

Lemma run_stops_not_loops E raw exp prm prb l e c :
  run_stops E raw exp prm prb l e → run_loops E raw exp prm prb c → False.
Proof.
  intros Hstop (Hexp & Hprm & Hnone & HG & Hrd & Hf & Hk & Hthr & _).
  inversion Hstop; simplify_eq; try congruence.
  - by destruct Hexp.
  - same_result.
    match goal with H : check_keywords _ _ _ _ = Raise _ |- _ =>
      unfold check_keywords in H; rewrite Hk in H end.
    congruence.
Qed.

Lemma run_enters_loop E raw exp prm prb c w :
  run_loops E raw exp prm prb c →
  run E raw exp prm prb w
  = run_loop E c (extend w (setup_log (su_prm c) prb raw)).
Proof.
  intros Hc.
  destruct (run_cases E raw exp prm prb w)
    as [(l & e & Hstop & _)|(c' & Hc' & ->)].
  - destruct (run_stops_not_loops _ _ _ _ _ _ _ _ Hstop Hc).
  - by rewrite (run_loops_inj _ _ _ _ _ _ _ Hc Hc').
Qed.

Lemma process_chunk_done E c chunk evs w :
  chunk_done E c chunk evs →
  process_chunk E (su_filter c) (su_strong c) (su_weak c) (su_graph c)
    (su_prm c) chunk w
  = (extend w evs, Return ()).
Proof.
  intros [fil strong weak comps Hf Hs Hw Hk Hc].
  unfold process_chunk, mbind, action_mbind, call, mret, action_ret,
    check_keywords.
  rewrite Hf, Hs, Hw, Hk, Hc. by rewrite !log_extend, !extend_extend.
Qed.

Lemma process_chunk_fails E c chunk evs e w :
  chunk_fails E c chunk evs e →
  process_chunk E (su_filter c) (su_strong c) (su_weak c) (su_graph c)
    (su_prm c) chunk w
  = (extend w evs, Raise e).
Proof.
  unfold process_chunk, mbind, action_mbind, call, mret, action_ret.
  intros [e' Hf|fil e' Hf Hs|fil strong e' Hf Hs Hw|fil strong weak e' Hf Hs Hw Hc].
  - by rewrite Hf.
  - rewrite Hf, Hs. by rewrite !log_extend, !extend_extend.
  - rewrite Hf, Hs, Hw. by rewrite !log_extend, !extend_extend.
  - rewrite Hf, Hs, Hw, Hc. by rewrite !log_extend, !extend_extend.
Qed.

Lemma process_chunk_cases E (c : setup_result E) chunk :
  (∃ evs, chunk_done E c chunk evs) ∨ (∃ evs e, chunk_fails E c chunk evs e).
Proof.
  destruct (apply_filter E (data_chunk_full chunk) (su_filter c))
    as [e|fil] eqn:Hf; [right; eexists _, _; by apply fails_filter|].
  destruct (apply_threshold E fil (- su_strong c) below)
    as [e|strong] eqn:Hs; [right; eexists _, _; by eapply fails_strong|].
  destruct (apply_threshold E fil (- su_weak c) below)
    as [e|weak] eqn:Hw; [right; eexists _, _; by eapply fails_weak|].
  destruct (check_keywords "connected_components"
              ["chunk_strong"; "chunk_weak"; "graph"]%string (su_prm c)
              (connected_components E strong weak (su_graph c) (su_prm c)))
    as [e|comps] eqn:Hc.
  - right. eexists _, _. by eapply fails_components.
  - apply check_keywords_no_clash in Hc as [Hk Hc]. left. eexists.
    by eapply done_chunk.
Qed.

Lemma for_each_done E (c : setup_result E) cs logs stop w :
  Forall2 (chunk_done E c) cs logs →
  for_each cs stop
    (process_chunk E (su_filter c) (su_strong c) (su_weak c) (su_graph c)
       (su_prm c)) w
  = (extend w (mjoin logs), loop_end stop).
Proof.
  intros H. revert w. induction H as [|chunk evs cs logs Hd _ IH]; intros w; simpl.
  - rewrite extend_nil. by destruct stop.
  - unfold mbind, action_mbind.
    by rewrite (process_chunk_done E c chunk evs w Hd), IH, extend_extend.
Qed.

Lemma for_each_fails E (c : setup_result E) done chunk rest logs evs e stop w :
  Forall2 (chunk_done E c) done logs →
  chunk_fails E c chunk evs e →
  for_each (done ++ chunk :: rest) stop
    (process_chunk E (su_filter c) (su_strong c) (su_weak c) (su_graph c)
       (su_prm c)) w
  = (extend w (mjoin logs ++ evs), Raise e).
Proof.
  intros H Hf. revert w.
  induction H as [|chunk' evs' cs logs Hd _ IH]; intros w; simpl.
  - unfold mbind, action_mbind. by rewrite (process_chunk_fails E c chunk evs e w Hf).
  - unfold mbind, action_mbind.
    by rewrite (process_chunk_done E c chunk' evs' w Hd), IH, extend_extend,
      app_assoc.
Qed.

Lemma for_each_cases E (c : setup_result E) cs :
  (∃ logs, Forall2 (chunk_done E c) cs logs)
  ∨ (∃ done chunk rest logs evs e,
       cs = done ++ chunk :: rest
       ∧ Forall2 (chunk_done E c) done logs
       ∧ chunk_fails E c chunk evs e).
Proof.
  induction cs as [|chunk cs IH]; [left; by exists []|].
  destruct (process_chunk_cases E c chunk) as [[evs Hd]|(evs & e & Hf)].
  - destruct IH as [[logs Hl]|(done & ch & rest & logs & evs' & e & -> & Hl & Hf)].
    + left. exists (evs :: logs). by constructor.
    + right. exists (chunk :: done), ch, rest, (evs :: logs), evs', e.
      split; [done|]. split; [by constructor|done].
  - right. exists [], chunk, cs, [], evs, e. split; [done|]. split; [constructor|done].
Qed.

(** X6.  When the set-up succeeds and the four calls return on every
    chunk the generator yields, the log of the run is the log of the
    set-up followed by the four calls of each chunk, in the order of the
    chunks; the run then ends as the generator does: normally, or with the
    exception the generator raised after its last chunk. *)
Theorem run_completes E raw exp prm prb c logs w :
  run_loops E raw exp prm prb c →
  Forall2 (chunk_done E c) (su_chunks c) logs →
  run E raw exp prm prb w
  = (extend w (setup_log (su_prm c) prb raw ++ mjoin logs),
     loop_end (su_stop c)).
Proof.
  intros Hc Hlogs. rewrite (run_enters_loop _ _ _ _ _ c w Hc). unfold run_loop.
  by rewrite (for_each_done E c _ logs), extend_extend.
Qed.

(** The scenario: one chunk, thresholds 2 and 1. *)
Lemma run_completes_witness :
  let E := with_thresholds 2 1 in
  let raw : option (raw_input (Reader E)) := Some (RawArray scenario_samples) in
  let c := MkSetup E scenario_prm {[ 0%nat := ∅ ]} scenario_samples () 2 1
             [MkChunk scenario_samples] None in
  ∃ logs,
    run_loops E raw (Some scenario_experiment) (Some scenario_prm)
      (Some scenario_prb) c
    ∧ Forall2 (chunk_done E c) (su_chunks c) logs
    ∧ run E raw (Some scenario_experiment) (Some scenario_prm)
        (Some scenario_prb) fresh
      = (extend fresh (setup_log scenario_prm (Some scenario_prb) raw
                         ++ mjoin logs),
         Return ()).
Proof.
  intros E raw c.
  assert (run_loops E raw (Some scenario_experiment) (Some scenario_prm)
            (Some scenario_prb) c) as Hc.
  { split; [by eexists|]. repeat split; by vm_compute. }
  assert (∃ evs, chunk_done E c (MkChunk scenario_samples) evs) as [evs Hevs].
  { eexists. by eapply done_chunk. }
  assert (Forall2 (chunk_done E c) (su_chunks c) [evs]) as Hlogs
    by (repeat constructor; exact Hevs).
  exists [evs]. split; [exact Hc|]. split; [exact Hlogs|].
  exact (run_completes E raw (Some scenario_experiment) (Some scenario_prm)
           (Some scenario_prb) c [evs] fresh Hc Hlogs).
Defined.

(** X7.  A run returns normally only after everything returned: the
    set-up succeeded, the generator ended without an exception, and on
    every chunk it yielded the filter, the two comparisons and
    [connected_components] were called and returned, in this order. *)
Theorem run_returns_normally E raw exp prm prb w w' :
  run E raw exp prm prb w = (w', Return ()) →
  ∃ c logs,
    run_loops E raw exp prm prb c
    ∧ su_stop c = None
    ∧ Forall2 (chunk_done E c) (su_chunks c) logs
    ∧ w' = extend w (setup_log (su_prm c) prb raw ++ mjoin logs).
Proof.
  intros Hrun.
  destruct (run_cases E raw exp prm prb w)
    as [(l & e & _ & Hstop)|(c & Hc & Hloop)];
    [rewrite Hstop in Hrun; by simplify_eq|].
  rewrite Hloop in Hrun. unfold run_loop in Hrun. exists c.
  destruct (for_each_cases E c (su_chunks c))
    as [[logs Hl]|(done & chunk & rest & logs & evs & e & Hcs & Hl & Hf)].
  - rewrite (for_each_done E c _ logs), extend_extend in Hrun by done.
    exists logs. destruct (su_stop c); simplify_eq/=. done.
  - rewrite Hcs, (for_each_fails E c done chunk rest logs evs e) in Hrun by done.
    by simplify_eq.
Qed.

(** The run of the scenario returns normally. *)
Lemma run_returns_normally_witness :
  let E := with_thresholds 2 1 in
  let raw : option (raw_input (Reader E)) := Some (RawArray scenario_samples) in
  let m := run E raw (Some scenario_experiment) (Some scenario_prm)
             (Some scenario_prb) in
  m fresh = ((m fresh).1, Return ())
  ∧ ∃ c logs,
      run_loops E raw (Some scenario_experiment) (Some scenario_prm)
        (Some scenario_prb) c
      ∧ su_stop c = None
      ∧ Forall2 (chunk_done E c) (su_chunks c) logs
      ∧ (m fresh).1
        = extend fresh (setup_log (su_prm c) (Some scenario_prb) raw
                          ++ mjoin logs).
Proof.
  intros E raw m.
  assert (m fresh = ((m fresh).1, Return ())) as H.
  { apply injective_projections; [done|by vm_compute]. }
  split; [exact H|].
  exact (run_returns_normally E raw (Some scenario_experiment)
           (Some scenario_prm) (Some scenario_prb) fresh (m fresh).1 H).
Defined.

(** X8.  The first chunk on which one of the four calls raises ends the
    run with that exception: the log holds the set-up, the four calls of
    each chunk before it and the calls on the failing chunk up to the one
    that raised; nothing is called on the chunks after it. *)
Theorem run_stops_at_failing_chunk E raw exp prm prb c done chunk rest logs
    evs e w :
  run_loops E raw exp prm prb c →
  su_chunks c = done ++ chunk :: rest →
  Forall2 (chunk_done E c) done logs →
  chunk_fails E c chunk evs e →
  run E raw exp prm prb w
  = (extend w (setup_log (su_prm c) prb raw ++ mjoin logs ++ evs), Raise e).
Proof.
  intros Hc Hcs Hlogs Hf. rewrite (run_enters_loop _ _ _ _ _ c w Hc).
  unfold run_loop.
  by rewrite Hcs, (for_each_fails E c done chunk rest logs evs e),
    extend_extend.
Qed.

(** A recording in three chunks whose second chunk the filter rejects:
    the third chunk is not worked on. *)
Lemma run_stops_at_failing_chunk_witness :
  let E := three_chunks in
  let raw : option (raw_input (Reader E)) := Some (RawArray scenario_samples) in
  let c := MkSetup E scenario_prm {[ 0%nat := ∅ ]} scenario_samples () 2 1
             [MkChunk scenario_samples; MkChunk []; MkChunk scenario_samples]
             None in
  let e := DataSourceError "empty chunk" in
  ∃ logs,
    run_loops E raw (Some scenario_experiment) (Some scenario_prm)
      (Some scenario_prb) c
    ∧ su_chunks c
      = [MkChunk scenario_samples] ++ MkChunk [] :: [MkChunk scenario_samples]
    ∧ Forall2 (chunk_done E c) [MkChunk scenario_samples] logs
    ∧ chunk_fails E c (MkChunk []) [CallApplyFilter []] e
    ∧ run E raw (Some scenario_experiment) (Some scenario_prm)
        (Some scenario_prb) fresh
      = (extend fresh (setup_log scenario_prm (Some scenario_prb) raw
                         ++ mjoin logs ++ [CallApplyFilter []]),
         Raise e).
Proof.
  intros E raw c e.
  assert (run_loops E raw (Some scenario_experiment) (Some scenario_prm)
            (Some scenario_prb) c) as Hc.
  { split; [by eexists|]. repeat split; by vm_compute. }
  assert (∃ evs, chunk_done E c (MkChunk scenario_samples) evs) as [evs Hevs].
  { eexists. by eapply done_chunk. }
  assert (Forall2 (chunk_done E c) [MkChunk scenario_samples] [evs]) as Hlogs
    by (repeat constructor; exact Hevs).
  assert (chunk_fails E c (MkChunk []) [CallApplyFilter []] e) as Hf
    by by apply fails_filter.
  exists [evs]. split; [exact Hc|]. split; [reflexivity|].
  split; [exact Hlogs|]. split; [exact Hf|].
  exact (run_stops_at_failing_chunk E raw (Some scenario_experiment)
           (Some scenario_prm) (Some scenario_prb) c
           [MkChunk scenario_samples] (MkChunk [])
           [MkChunk scenario_samples] [evs] [CallApplyFilter []] e fresh
           Hc eq_refl Hlogs Hf).
Defined.

(* ===================================================================== *)
(** * The keyword arguments of [get_params] *)
(* ===================================================================== *)

(** X9.  [get_params] cannot be given a parameter named [pydict_default]:
    the call of [get_pydict] repeats the keyword and raises [TypeError],
    whatever the file.  With any other keyword arguments the result is
    that of [get_pydict] on the file name, the defaults loaded in the
    namespace of the keyword arguments, and the keyword arguments. *)
Theorem get_params_keywords pdp rf ptp filename (kwargs : pydict) :
  (is_Some (kwargs !! "pydict_default"%string) →
   ∃ msg, get_params pdp rf ptp filename kwargs = Raise (TypeError msg))
  ∧ (kwargs !! "pydict_default"%string = None →
     get_params pdp rf ptp filename kwargs
     = get_pydict rf ptp filename (load_default_params pdp ptp (Some kwargs))
         kwargs).
Proof.
  split.
  - intros Hk. unfold get_params.
    by eapply check_keywords_clash, keyword_clash_singleton.
  - intros Hk. unfold get_params, check_keywords.
    by rewrite keyword_clash_none by (by constructor).
Qed.

(** A call with the keyword argument [pydict_default]. *)
Lemma get_params_keywords_witness :
  let kwargs : pydict := {[ "pydict_default"%string := PyInt 1 ]} in
  is_Some (kwargs !! "pydict_default"%string)
  ∧ ∃ msg, get_params "defaults" (λ _, None) (λ _ ns, ns) None kwargs
           = Raise (TypeError msg).
Proof.
  intros kwargs.
  assert (is_Some (kwargs !! "pydict_default"%string)) as H by by eexists.
  split; [exact H|].
  exact (proj1 (get_params_keywords "defaults" (λ _, None) (λ _ ns, ns) None
                  kwargs) H).
Defined.

(* ===================================================================== *)
(** * C5: the thresholds of a run *)
(* ===================================================================== *)

Lemma threshold_calls_done E (c : setup_result E) chunk evs :
  chunk_done E c chunk evs →
  threshold_calls evs = [(- su_strong c, below); (- su_weak c, below)].
Proof. by intros []. Qed.

Lemma threshold_calls_fails E (c : setup_result E) chunk evs e :
  chunk_fails E c chunk evs e →
  threshold_calls evs
    `prefix_of` [(- su_strong c, below); (- su_weak c, below)].
Proof.
  intros []; simpl; [apply prefix_nil|by eexists [_]|done|done].
Qed.

Lemma threshold_calls_logs E (c : setup_result E) cs logs :
  Forall2 (chunk_done E c) cs logs →
  threshold_calls (mjoin logs)
  = mjoin (replicate (length cs)
             [(- su_strong c, below); (- su_weak c, below)]).
Proof.
  induction 1 as [|chunk evs cs logs Hd _ IH]; [done|].
  change (mjoin (evs :: logs)) with (evs ++ mjoin logs).
  rewrite threshold_calls_app, (threshold_calls_done E c chunk evs Hd), IH.
  done.
Qed.

(** The comparisons of the loop: those of the chunks in order, cut short
    where a call raises. *)
Lemma run_loop_comparisons E (c : setup_result E) w :
  ∃ body res,
    run_loop E c w = (extend w body, res)
    ∧ Forall (chunk_event (su_strong c) (su_weak c)) body
    ∧ threshold_calls body `prefix_of` comparisons c
    ∧ (res = Return () → threshold_calls body = comparisons c).
Proof.
  destruct (run_loop_log E c w) as (body & res & Hrun & Hbody).
  exists body, res. split; [done|]. split; [done|].
  unfold run_loop in Hrun. unfold comparisons.
  destruct (for_each_cases E c (su_chunks c))
    as [[logs Hl]|(done & chunk & rest & logs & evs & e & Hcs & Hl & Hf)].
  - rewrite (for_each_done E c _ logs) in Hrun by done.
    injection Hrun as Hw _. apply app_inv_head in Hw as <-.
    rewrite (threshold_calls_logs E c _ logs Hl). done.
  - rewrite Hcs in Hrun |- *.
    rewrite (for_each_fails E c done chunk rest logs evs e) in Hrun by done.
    injection Hrun as Hw <-. apply app_inv_head in Hw as <-.
    split; [|done].
    rewrite threshold_calls_app, (threshold_calls_logs E c _ logs Hl).
    rewrite length_app, replicate_add, join_app. apply prefix_app. simpl.
    destruct (threshold_calls_fails E c chunk evs e Hf) as [k Hk].
    exists (k ++ mjoin (replicate (length rest)
                          [(- su_strong c, below); (- su_weak c, below)])).
    by rewrite app_assoc, <- Hk.
Qed.

Lemma low_phase_no_chunk_work l :
  Forall (λ e, phase e ≤ 5)%nat l → Forall (λ e, is_chunk_work e = false) l.
Proof.
  intros H. eapply Forall_impl; [exact H|]. intros []; simpl; first [done | lia].
Qed.

Lemma run_stops_threshold_count E raw exp prm prb l e :
  run_stops E raw exp prm prb l e →
  (length (filter is_get_threshold l) ≤ 1)%nat.
Proof.
  intros Hstop. inversion Hstop; simplify_eq; try (simpl; lia).
  - match goal with H : first_missing _ = Some _ |- _ =>
      apply first_missing_some in H as [_ Hin] end.
    set_unfold in Hin.
    destruct Hin as [->|[->|[->|[->|[]]]]]; simpl; lia.
  - destruct raw as [[]|]; simpl; lia.
  - destruct raw as [[]|]; simpl; lia.
Qed.

Lemma setup_log_computed_once {R} d prb (raw : option (raw_input R)) s wk body :
  Forall (chunk_event s wk) body →
  computed_once (setup_log d prb raw ++ body) d
  ∧ threshold_calls (setup_log d prb raw ++ body) = threshold_calls body.
Proof.
  intros Hbody. split.
  - exists (param_reads ++ CallGetAdjacencyGraph prb :: read_events raw
              ++ [bandpass_call d]), (chunks_call d :: body).
    split; [destruct raw as [[]|]; reflexivity|]. split.
    + destruct raw as [[]|]; simpl; repeat (constructor; [done|]); constructor.
    + constructor; [done|]. eapply Forall_impl; [exact Hbody|].
      apply chunk_event_no_get_threshold.
  - rewrite threshold_calls_app. by destruct raw as [[]|].
Qed.

(** C5, as amended.  A run whose set-up fails raises, works on no chunk
    and computes the thresholds at most once.  In a run whose set-up
    succeeds the thresholds are computed exactly once, by the call of
    [get_threshold] on the reader and the filter of the run, before any
    work on a chunk, and the comparisons of the run are those of its
    chunks in order, each against the negated strong and then the negated
    weak value that call returned: all of them when the run returns, the
    first of them when a call raises.  The estimator returns strong ≥ weak,
    and weak ≥ 0 when the weak multiplier is not negative. *)
Theorem thresholds_computed_once E raw exp prm prb w :
  ∃ l res,
    run E raw exp prm prb w = (extend w l, res)
    ∧ ((∀ c, ¬ run_loops E raw exp prm prb c) →
         (∃ e, res = Raise e)
         ∧ Forall (λ e, is_chunk_work e = false) l
         ∧ (length (filter is_get_threshold l) ≤ 1)%nat)
    ∧ (∀ c, run_loops E raw exp prm prb c →
         computed_once l (su_prm c)
         ∧ threshold_calls l `prefix_of` comparisons c
         ∧ (res = Return () → threshold_calls l = comparisons c))
    ∧ (∀ excerpts (d : pydict) s wk,
         Spec.get_threshold excerpts d = Return (s, wk) →
         wk <= s
         ∧ ((∀ mw, param d "threshold_weak_multiplier" ≫= as_number
                   = Return mw → 0 <= mw) → 0 <= wk)).
Proof.
  destruct (run_cases E raw exp prm prb w)
    as [(l & e & Hstop & Hrun)|(c & Hc & Hrun)].
  - exists l, (Raise e). split; [done|].
    split; [|split; [|apply get_threshold_ordered]].
    + intros _. split; [by eexists|]. split.
      * eapply low_phase_no_chunk_work, run_stops_phase. exact Hstop.
      * by eapply run_stops_threshold_count.
    + intros c Hc. destruct (run_stops_not_loops _ _ _ _ _ _ _ _ Hstop Hc).
  - destruct (run_loop_comparisons E c
                (extend w (setup_log (su_prm c) prb raw)))
      as (body & res & Hloop & Hbody & Hprefix & Hall).
    rewrite Hloop, extend_extend in Hrun.
    exists (setup_log (su_prm c) prb raw ++ body), res. split; [done|].
    split; [|split; [|apply get_threshold_ordered]].
    + intros Hno. destruct (Hno c Hc).
    + intros c' Hc'. rewrite <- (run_loops_inj _ _ _ _ _ _ _ Hc Hc').
      destruct (setup_log_computed_once (su_prm c) prb raw _ _ body Hbody)
        as [Honce ->].
      done.
Qed.

(** The run of the scenario with the thresholds 2 and 1: its set-up
    succeeds. *)
Lemma thresholds_computed_once_witness :
  let E := with_thresholds 2 1 in
  let raw : option (raw_input (Reader E)) := Some (RawArray scenario_samples) in
  let c := MkSetup E scenario_prm {[ 0%nat := ∅ ]} scenario_samples () 2 1
             [MkChunk scenario_samples] None in
  run_loops E raw (Some scenario_experiment) (Some scenario_prm)
    (Some scenario_prb) c
  ∧ ∃ l res,
      run E raw (Some scenario_experiment) (Some scenario_prm)
        (Some scenario_prb) fresh = (extend fresh l, res)
      ∧ computed_once l scenario_prm
      ∧ threshold_calls l `prefix_of` [(- (2), below); (- (1), below)]
      ∧ (res = Return () →
         threshold_calls l = [(- (2), below); (- (1), below)]).
Proof.
  intros E raw c.
  assert (run_loops E raw (Some scenario_experiment) (Some scenario_prm)
            (Some scenario_prb) c) as Hc.
  { split; [by eexists|]. repeat split; by vm_compute. }
  split; [exact Hc|].
  destruct (thresholds_computed_once E raw (Some scenario_experiment)
              (Some scenario_prm) (Some scenario_prb) fresh)
    as (l & res & Hrun & _ & Hloop & _).
  exists l, res. split; [exact Hrun|]. exact (Hloop c Hc).
Defined.

(** C5 as stated fails: with the weak multiplier -1 the estimator returns
    a negative weak threshold and the run compares its chunk against it;
    and the run of the scenario without [filter_low] ends before the
    thresholds are computed. *)
Lemma weak_threshold_negative :
  let m := run with_estimator (Some (RawArray unit_samples))
             (Some scenario_experiment) (Some negative_weak_prm)
             (Some scenario_prb) in
  let m' := scenario_run scenario_samples
              (delete "filter_low"%string scenario_prm) in
  outcome m = Return ()
  ∧ match Spec.get_threshold [unit_samples] negative_weak_prm with
    | Return (s, wk) =>
        wk < 0
        ∧ threshold_calls (log_of m) = [(- s, below); (- wk, below)]
    | Raise _ => False
    end
  ∧ filter is_get_threshold (log_of m') = [].
Proof. by vm_compute. Qed.
